(** * BabooSSH: the [Endpoint] class (baboossh/endpoint.py)

    A shallow embedding of the [Endpoint] class: its constructor, [save],
    [delete], [find_all], [find_one], [__str__], [search], the probe
    [__asyncScan] and [scan], followed by the properties of the
    reachability engine.

    Python objects are records, the SQLite store is a record of tables
    (lists of rows in rowid order), and every method is a computation in a
    state-and-exception monad: an exception leaves the mutations done so
    far in place, as in Python. *)

From Stdlib Require Import Ascii DecimalString DecimalN.
From stdpp Require Import base decidable option list strings gmap.

Set Warnings "-register-all".
Open Scope Z_scope.
Open Scope string_scope.

(** ** Exceptions and the monad *)

(** The exception classes the module raises or handles.  [asyncssh_Error]
    carries [e.code] and [str(e)], [OSError] carries [e.errno] and stands
    for the class and its subclasses other than the deadline's.
    [asyncio_TimeoutError] is what [asyncio.wait_for] raises at the
    deadline: since Python 3.11 [asyncio.TimeoutError] is the builtin
    [TimeoutError], a subclass of [OSError], raised there without an
    [errno]. *)
Inductive Exn :=
| ValueError
| NameError
| TypeError
| AttributeError
| UnboundLocalError
| RecursionError
| IntegrityError
| NoPathException
| asyncssh_Error (code : Z) (reason : string)
| OSError (errno : option Z)
| asyncio_TimeoutError
| OtherException (name : string).

#[global] Instance Exn_eq_dec : EqDecision Exn.
Proof. solve_decision. Defined.

(** [isinstance(e, OSError)] and [isinstance(e, asyncio.TimeoutError)], as
    the [except] clauses test them, and [e.errno]. *)
Definition isinstance_OSError (exc : Exn) : bool :=
  match exc with
  | OSError _ | asyncio_TimeoutError => true
  | _ => false
  end.

Definition isinstance_asyncio_TimeoutError (exc : Exn) : bool :=
  match exc with
  | asyncio_TimeoutError => true
  | _ => false
  end.

Definition errno_of (exc : Exn) : option Z :=
  match exc with
  | OSError errno => errno
  | _ => None
  end.

Inductive result (A : Type) :=
| Ok (a : A)
| Raise (exc : Exn).
Arguments Ok {A} a.
Arguments Raise {A} exc.

Definition M (S A : Type) : Type := S -> result A * S.

Definition ret {S A} (a : A) : M S A := fun s => (Ok a, s).

Definition bind {S A B} (m : M S A) (k : A -> M S B) : M S B :=
  fun s => match m s with
           | (Ok a, s') => k a s'
           | (Raise exc, s') => (Raise exc, s')
           end.

Definition raise {S A} (exc : Exn) : M S A := fun s => (Raise exc, s).

Definition get {S} : M S S := fun s => (Ok s, s).

Definition modify {S} (f : S -> S) : M S unit := fun s => (Ok tt, f s).

(** [try: m except Exception as exc: handler exc]; an exception raised by
    the handler itself propagates. *)
Definition try_except {S A} (m : M S A) (handler : Exn -> M S A) : M S A :=
  fun s => match m s with
           | (Ok a, s') => (Ok a, s')
           | (Raise exc, s') => handler exc s'
           end.

Notation "x <- m ;; k" := (bind m (fun x => k))
  (at level 100, m at next level, right associativity).
Notation "m ;;; k" := (bind m (fun _ => k))
  (at level 100, right associativity).

Definition when {S} (b : bool) (m : M S unit) : M S unit :=
  if b then m else ret tt.

Fixpoint mapM {S A B} (f : A -> M S B) (l : list A) : M S (list B) :=
  match l with
  | [] => ret []
  | x :: l' => y <- f x ;; ys <- mapM f l' ;; ret (y :: ys)
  end.

Fixpoint forM_ {S A} (l : list A) (f : A -> M S unit) : M S unit :=
  match l with
  | [] => ret tt
  | x :: l' => f x ;;; forM_ l' f
  end.

(** ** Strings *)

(** [str.isdigit] and [int] on ASCII strings, through the decimal parser of
    the standard library; [str] of a non-negative integer. *)
Definition isdigit (s : string) : bool :=
  match s with
  | EmptyString => false
  | _ => match NilEmpty.uint_of_string s with Some _ => true | None => false end
  end.

Definition int (s : string) : N :=
  match NilEmpty.uint_of_string s with
  | Some d => N.of_uint d
  | None => 0%N
  end.

Definition str (n : N) : string := NilZero.string_of_uint (N.to_uint n).

(** [s.partition(sep)] for a separator of one character. *)
Fixpoint partition (sep : ascii) (s : string) : string * string * string :=
  match s with
  | EmptyString => (EmptyString, EmptyString, EmptyString)
  | String c s' =>
      if Ascii.eqb c sep then (EmptyString, String sep EmptyString, s')
      else let '(a, m, b) := partition sep s' in (String c a, m, b)
  end.

Fixpoint contains (c : ascii) (s : string) : bool :=
  match s with
  | EmptyString => false
  | String d s' => Ascii.eqb d c || contains c s'
  end.

(** SQLite's [LIKE]: [%] matches any run of characters, [_] any one
    character, letters of ASCII match without regard to case. *)
Definition lower (c : ascii) : ascii :=
  let n := nat_of_ascii c in
  if ((65 <=? n) && (n <=? 90))%nat then ascii_of_nat (n + 32) else c.

Fixpoint like (p : string) : string -> bool :=
  match p with
  | EmptyString => fun s => match s with EmptyString => true | _ => false end
  | String c p' =>
      if Ascii.eqb c "%" then
        fix star (s : string) : bool :=
          like p' s || match s with
                       | EmptyString => false
                       | String _ s' => star s'
                       end
      else if Ascii.eqb c "_" then
        fun s => match s with
                 | EmptyString => false
                 | String _ s' => like p' s'
                 end
      else
        fun s => match s with
                 | EmptyString => false
                 | String d s' => Ascii.eqb (lower c) (lower d) && like p' s'
                 end
  end.

(** [json.dumps] of a list of strings that need no escaping, as the three
    mechanism names the probe records. *)
Definition dquote : string := String (ascii_of_nat 34) EmptyString.

Fixpoint join (sep : string) (l : list string) : string :=
  match l with
  | [] => EmptyString
  | [x] => x
  | x :: l' => x +:+ sep +:+ join sep l'
  end.

Definition json_dumps (l : list string) : string :=
  "[" +:+ join ", " (map (fun s => dquote +:+ s +:+ dquote) l) +:+ "]".

(** ** The store *)

(** Modelled from the spec: the persistence schema of section 6, owned by
    the storage collaborator [dbConn].  A table is the list of its rows in
    rowid order; [fetchone] is the first match.  [r_port] is the number
    whose decimal text the [port] column holds, and the [auth] column is
    kept as the array its JSON text denotes. *)
Record EndpointRow := {
  r_id : Z;
  r_host : option Z;
  r_ip : string;
  r_port : N;
  r_scanned : bool;
  r_reachable : option bool;
  r_distance : option Z;
  r_auth : option (list string);
  r_scope : bool;
  r_found : option Z
}.

(** Modelled from the spec: a route edge (originHost-or-none,
    destinationEndpoint), stored under a generated id. *)
Record PathRow := {
  p_id : Z;
  p_src : option Z;
  p_dst : option Z
}.

Record DB := {
  endpoints : list EndpointRow;
  paths : list PathRow;
  hosts : list Z
}.

(** The world a call runs in: the store, the statements executed so far
    and the lines printed so far. *)
Record World := {
  db : DB;
  queries : list string;
  stdout : list string
}.

Definition with_db (f : DB -> DB) (w : World) : World :=
  {| db := f (db w); queries := queries w; stdout := stdout w |}.

Definition with_endpoints (f : list EndpointRow -> list EndpointRow) (d : DB) : DB :=
  {| endpoints := f (endpoints d); paths := paths d; hosts := hosts d |}.

Definition with_paths (f : list PathRow -> list PathRow) (d : DB) : DB :=
  {| endpoints := endpoints d; paths := f (paths d); hosts := hosts d |}.

(** [c.execute(sql, ...)]: the statement is recorded; its effect on the
    tables is given by the caller. *)
Definition execute (sql : string) : M World unit :=
  modify (fun w => {| db := db w; queries := queries w ++ [sql]; stdout := stdout w |}).

Definition print_line (line : string) : M World unit :=
  modify (fun w => {| db := db w; queries := queries w; stdout := stdout w ++ [line] |}).

(** The id SQLite generates for a new row: one more than the largest. *)
Definition next_id (ids : list Z) : Z := 1 + foldr Z.max 0 ids.

(** ** Host *)

Module Host.

(** Modelled from the spec: the Host registry is a collaborator; of a Host
    the Endpoint class reads only its [id], and looks Hosts up by id. *)
Record t := { id : Z }.

Definition find_one (host_id : option Z) : M World (option t) :=
  match host_id with
  | None => ret None
  | Some h =>
      execute "SELECT name FROM hosts WHERE id=?" ;;;
      w <- get ;;
      ret (if bool_decide (h ∈ hosts (db w)) then Some {| id := h |} else None)
  end.

End Host.

(** ** Endpoint *)

Module Endpoint.

(** The object.  [port] is the number the property reads back with [int]
    from the private digit string the constructor checked. *)
Inductive t := mk {
  ip : string;
  port : N;
  host : option Host.t;
  id : option Z;
  scope : bool;
  scanned : bool;
  reachable : option bool;
  distance : option Z;
  found : option t;
  auth : gset string
}.

Definition set_id (v : option Z) (e : t) : t :=
  mk (ip e) (port e) (host e) v (scope e) (scanned e) (reachable e)
     (distance e) (found e) (auth e).

Definition set_scanned (v : bool) (e : t) : t :=
  mk (ip e) (port e) (host e) (id e) (scope e) v (reachable e)
     (distance e) (found e) (auth e).

Definition set_reachable (v : option bool) (e : t) : t :=
  mk (ip e) (port e) (host e) (id e) (scope e) (scanned e) v
     (distance e) (found e) (auth e).

Definition set_distance (v : option Z) (e : t) : t :=
  mk (ip e) (port e) (host e) (id e) (scope e) (scanned e) (reachable e)
     v (found e) (auth e).

Definition set_auth (v : gset string) (e : t) : t :=
  mk (ip e) (port e) (host e) (id e) (scope e) (scanned e) (reachable e)
     (distance e) (found e) v.

Definition search_fields : list string := ["ip"; "port"; "auth"].

(** Rows of the [endpoints] table selected by the statements of the class. *)
Definition has_identity (ip : string) (port : N) (r : EndpointRow) : bool :=
  String.eqb (r_ip r) ip && N.eqb (r_port r) port.

Definition has_id (i : Z) (r : EndpointRow) : bool := Z.eqb (r_id r) i.

(** The fields a fresh object gets before the store is consulted. *)
Definition fresh (ip : string) (port : N) : t :=
  mk ip port None None true false None None None ∅.

Section Interpreter.

(** [ipaddress.ip_address] belongs to the interpreter's library: the class
    only needs to know whether it accepts the string. *)
Variable ip_address : string -> bool.

(** [Endpoint(ip, port)] and [Endpoint.find_one]: each call takes one of the
    [depth] frames the interpreter has left. *)
Fixpoint __init__ (depth : nat) (ip port : string) {struct depth} : M World t :=
  match depth with
  | O => raise RecursionError
  | S d =>
      if negb (ip_address ip) then raise ValueError else
      if negb (isdigit port) then raise ValueError else
      let self := fresh ip (int port) in
      execute "SELECT id,host,scanned,reachable,distance,auth,scope,found FROM endpoints WHERE ip=? AND port=?" ;;;
      w <- get ;;
      match List.find (has_identity ip (int port)) (endpoints (db w)) with
      | None => ret self
      | Some savedEndpoint =>
          h <- Host.find_one (r_host savedEndpoint) ;;
          fnd <- match r_found savedEndpoint with
                 | None => ret None
                 | Some i => find_one d (Some i) None
                 end ;;
          ret (mk ip (int port) h (Some (r_id savedEndpoint))
                  (r_scope savedEndpoint) (r_scanned savedEndpoint)
                  (r_reachable savedEndpoint) (r_distance savedEndpoint) fnd
                  (match r_auth savedEndpoint with
                   | None => ∅
                   | Some l => list_to_set l
                   end))
      end
  end
with find_one (depth : nat) (endpoint_id : option Z) (ip_port : option string)
  {struct depth} : M World (option t) :=
  match depth with
  | O => raise RecursionError
  | S d =>
      let build (row : option EndpointRow) : M World (option t) :=
        match row with
        | None => ret None
        | Some r => e <- __init__ d (r_ip r) (str (r_port r)) ;; ret (Some e)
        end in
      match endpoint_id with
      | Some i =>
          if Z.eqb i 0 then ret None
          else
            execute "SELECT ip,port FROM endpoints WHERE id=?" ;;;
            w <- get ;;
            build (List.find (has_id i) (endpoints (db w)))
      | None =>
          match ip_port with
          | Some s =>
              let '(ip, sep, port) := partition ":" s in
              if String.eqb port "" then raise ValueError
              else
                execute "SELECT ip,port FROM endpoints WHERE ip=? and port=?" ;;;
                w <- get ;;
                build (List.find
                         (fun r => String.eqb (r_ip r) ip && String.eqb (str (r_port r)) port)
                         (endpoints (db w)))
          | None => ret None
          end
      end
  end.

(** In [find_all] the name [endpoint] is bound neither locally nor at
    module level: reading it raises. *)
Definition endpoint : M World (option t) := raise NameError.

Definition id_or_None (e : option t) : option Z :=
  match e with Some x => id x | None => None end.

(** [found=?]: a NULL on either side matches nothing. *)
Definition found_is (i : option Z) (r : EndpointRow) : bool :=
  match r_found r, i with
  | Some a, Some b => Z.eqb a b
  | _, _ => false
  end.

Definition find_all (depth : nat) (scope : option bool) (found : option t)
  : M World (list t) :=
  req <- match found with
         | None =>
             match scope with
             | None =>
                 execute "SELECT ip,port FROM endpoints" ;;;
                 w <- get ;;
                 ret (endpoints (db w))
             | Some s =>
                 execute "SELECT ip,port FROM endpoints WHERE scope=?" ;;;
                 w <- get ;;
                 ret (List.filter (fun r => Bool.eqb (r_scope r) s) (endpoints (db w)))
             end
         | Some _ =>
             match scope with
             | None =>
                 e <- endpoint ;;
                 execute "SELECT ip,port FROM endpoints WHERE found=?" ;;;
                 w <- get ;;
                 ret (List.filter (found_is (id_or_None e)) (endpoints (db w)))
             | Some s =>
                 e <- endpoint ;;
                 execute "SELECT ip,port FROM endpoints WHERE scope=? and found=?" ;;;
                 w <- get ;;
                 ret (List.filter (fun r => Bool.eqb (r_scope r) s && found_is (id_or_None e) r)
                                  (endpoints (db w)))
             end
         end ;;
  mapM (fun row => __init__ depth (r_ip row) (str (r_port row))) req.

(** The text a column of the allow-list holds in a row; [None] is SQL's
    NULL, which no pattern matches. *)
Definition column (field : string) (r : EndpointRow) : option string :=
  if String.eqb field "ip" then Some (r_ip r)
  else if String.eqb field "port" then Some (str (r_port r))
  else json_dumps <$> r_auth r.

Definition like_column (field val : string) (r : EndpointRow) : bool :=
  match column field r with
  | Some text => like val text
  | None => false
  end.

Definition search (depth : nat) (field val : string) (show_all : bool)
  : M World (list t) :=
  if negb (bool_decide (field ∈ search_fields)) then raise ValueError else
  print_line field ;;;
  let val := "%" +:+ val +:+ "%" in
  rows <- (if show_all then
             execute ("SELECT ip,port FROM endpoints WHERE " +:+ field +:+ " LIKE ?") ;;;
             w <- get ;;
             ret (List.filter (like_column field val) (endpoints (db w)))
           else
             execute ("SELECT ip,port FROM endpoints WHERE scope=? and " +:+ field +:+ " LIKE ?") ;;;
             w <- get ;;
             ret (List.filter (fun r => r_scope r && like_column field val r)
                              (endpoints (db w)))) ;;
  mapM (fun row => __init__ depth (r_ip row) (str (r_port row))) rows.

End Interpreter.

(** A method runs on its object and the world; the object keeps what was
    assigned to it when the method raises. *)
Record frame := { self : t; world : World }.

Definition liftW {A} (m : M World A) : M frame A :=
  fun f => let '(r, w) := m (world f) in (r, {| self := self f; world := w |}).

Definition modify_self (g : t -> t) : M frame unit :=
  modify (fun f => {| self := g (self f); world := world f |}).

Definition print (line : string) : M frame unit := liftW (print_line line).

(** The row [save] writes for the object. *)
Definition row_of (i : Z) (e : t) : EndpointRow :=
  {| r_id := i;
     r_host := match host e with Some h => Some (Host.id h) | None => None end;
     r_ip := ip e;
     r_port := port e;
     r_scanned := scanned e;
     r_reachable := reachable e;
     r_distance := distance e;
     r_auth := if bool_decide (auth e = ∅) then None else Some (elements (auth e));
     r_scope := scope e;
     r_found := match found e with Some x => id x | None => None end |}.

(** Modelled from the spec: uniqueness is enforced on (ip, port), so an
    UPDATE or INSERT that would give two rows one identity fails. *)
Definition update_endpoint (i : Z) (e : t) : M World unit :=
  w <- get ;;
  let rows := endpoints (db w) in
  if existsb (has_id i) rows
     && existsb (fun r => has_identity (ip e) (port e) r && negb (has_id i r)) rows
  then raise IntegrityError
  else modify (with_db (with_endpoints
                 (map (fun r => if has_id i r then row_of i e else r)))).

Definition insert_endpoint (e : t) : M World unit :=
  w <- get ;;
  let rows := endpoints (db w) in
  if existsb (has_identity (ip e) (port e)) rows
  then raise IntegrityError
  else modify (with_db (with_endpoints
                 (fun rows => (rows ++ [row_of (next_id (map r_id rows)) e])%list))).

Definition save : M frame unit :=
  f <- get ;;
  match id (self f) with
  | Some i =>
      liftW (execute "UPDATE endpoints SET ip = ?, port = ?, host = ?, scanned = ?, reachable = ?, distance = ?, auth = ?, scope = ?, found = ? WHERE id = ?" ;;;
             update_endpoint i (self f))
  | None =>
      liftW (execute "INSERT INTO endpoints(ip,port,host,scanned,reachable,distance,auth,scope,found) VALUES (?,?,?,?,?,?,?,?,?) " ;;;
             insert_endpoint (self f)) ;;;
      liftW (execute "SELECT id FROM endpoints WHERE ip=? AND port=?") ;;;
      f <- get ;;
      match List.find (has_identity (ip (self f)) (port (self f)))
                      (endpoints (db (world f))) with
      | Some r => modify_self (set_id (Some (r_id r)))
      | None => raise TypeError
      end
  end.

Definition __str__ (e : t) : string := ip e +:+ ":" +:+ str (port e).

End Endpoint.

(** ** Path *)

Module Path.

(** Modelled from the spec: the route edge class is a collaborator.  An
    edge is the pair (origin Host or none, destination Endpoint); the
    constructor finds the id of the stored edge if there is one, [save]
    persists the edge if it is absent, [delete] removes the stored edge. *)
Record t := { src : option Host.t; dst : Endpoint.t; id : option Z }.

Definition src_id (s : option Host.t) : option Z :=
  match s with Some h => Some (Host.id h) | None => None end.

Definition is_edge (s : option Z) (d : option Z) (r : PathRow) : bool :=
  bool_decide (p_src r = s)
  && match d with
     | Some i => bool_decide (p_dst r = Some i)
     | None => false
     end.

Definition __init__ (src : option Host.t) (dst : Endpoint.t) : M World t :=
  execute "SELECT id FROM paths WHERE src=? AND dst=?" ;;;
  w <- get ;;
  ret {| src := src; dst := dst;
         id := match List.find (is_edge (src_id src) (Endpoint.id dst)) (paths (db w)) with
               | Some r => Some (p_id r)
               | None => None
               end |}.

Definition save (p : t) : M World t :=
  match id p with
  | Some i =>
      execute "UPDATE paths SET src = ?, dst = ? WHERE id = ?" ;;;
      modify (with_db (with_paths
        (map (fun r => if Z.eqb (p_id r) i
                       then {| p_id := i; p_src := src_id (src p);
                               p_dst := Endpoint.id (dst p) |}
                       else r)))) ;;;
      ret p
  | None =>
      execute "INSERT INTO paths(src,dst) VALUES (?,?)" ;;;
      w <- get ;;
      let i := next_id (map p_id (paths (db w))) in
      modify (with_db (with_paths
        (fun rows => (rows ++ [{| p_id := i; p_src := src_id (src p);
                                  p_dst := Endpoint.id (dst p) |}])%list))) ;;;
      ret {| src := src p; dst := dst p; id := Some i |}
  end.

Definition delete (p : t) : M World unit :=
  match id p with
  | None => ret tt
  | Some i =>
      execute "DELETE FROM paths WHERE id = ?" ;;;
      modify (with_db (with_paths (List.filter (fun r => negb (Z.eqb (p_id r) i)))))
  end.

(** Modelled from the spec: [Path.find_all(dst=...)], all the stored edges
    that target the Endpoint. *)
Definition targets (d : option Z) (r : PathRow) : bool :=
  match d with
  | Some i => bool_decide (p_dst r = Some i)
  | None => false
  end.

Definition find_all (dst : Endpoint.t) : M World (list t) :=
  execute "SELECT src,dst FROM paths WHERE dst=?" ;;;
  w <- get ;;
  ret (map (fun r => {| src := match p_src r with
                               | Some h => Some {| Host.id := h |}
                               | None => None
                               end;
                        dst := dst; id := Some (p_id r) |})
           (List.filter (targets (Endpoint.id dst)) (paths (db w)))).

End Path.

(** ** Connection *)

Module Connection.

(** Modelled from the spec: a gateway is a previously established
    Connection; the scan reads the Endpoint it terminates on and its hop
    distance. *)
Record t := { endpoint : Endpoint.t; distance : option Z }.

End Connection.

(** ** What a scan meets outside the class *)

(** A tunnel or connection handle: [close()] returns or raises. *)
Record Handle := { close_error : option Exn }.

#[global] Instance Handle_eq_dec : EqDecision Handle.
Proof. solve_decision. Defined.

(** [h.close()] on a name that may be [None] or unbound. *)
Definition close {S} (unbound : Exn) (h : option Handle) : M S unit :=
  match h with
  | None => raise unbound
  | Some x => match close_error x with
              | None => ret tt
              | Some exc => raise exc
              end
  end.

(** The callbacks asyncssh may run on the [ScanSSHClient] during the
    negotiation. *)
Inductive Callback :=
| connection_made
| auth_banner_received
| public_key_auth_requested
| password_auth_requested
| kbdint_auth_requested
| auth_completed.

#[global] Instance Callback_eq_dec : EqDecision Callback.
Proof. solve_decision. Defined.

(** How [asyncio.wait_for(asyncssh.create_connection(...), timeout=3.0)]
    ends: with the connection, or with an exception, that of the deadline
    included. *)
Inductive Ending :=
| returns (conn : Handle)
| raises (exc : Exn).

#[global] Instance Ending_eq_dec : EqDecision Ending.
Proof. solve_decision. Defined.

Record Negotiation := { callbacks : list Callback; ending : Ending }.

(** What the collaborators answer during one [scan]:
    [Connection.find_one(gateway_to=self)], [gateway.initConnect()] and the
    negotiation with the remote service. *)
Record Env := {
  find_one_gateway_to : result (option Connection.t);
  initConnect : result Handle;
  negotiation : Negotiation
}.

Definition answer {S A} (r : result A) : M S A := fun s => (r, s).

(** [errno.EHOSTUNREACH], as Linux numbers it. *)
Definition EHOSTUNREACH : Z := 113.

(** ** The probe *)

Import Endpoint.

(** The inner class [ScanSSHClient]: its methods write to the scanned
    object through the captured variable [endpoint]. *)
Definition ScanSSHClient (cb : Callback) : M frame unit :=
  match cb with
  | connection_made => modify_self (set_reachable (Some true))
  | auth_banner_received => ret tt
  | public_key_auth_requested =>
      modify_self (fun e => set_auth (auth e ∪ {["privkey"]}) e)
  | password_auth_requested =>
      modify_self (fun e => set_auth (auth e ∪ {["password"]}) e)
  | kbdint_auth_requested =>
      modify_self (fun e => set_auth (auth e ∪ {["kbdint"]}) e)
  | auth_completed => ret tt
  end.

Definition create_connection (n : Negotiation) : M frame (option Handle) :=
  forM_ (callbacks n) ScanSSHClient ;;;
  match ending n with
  | returns conn => ret (Some conn)
  | raises exc => raise exc
  end.

(** Where the [try] statement of [__asyncScan] leaves the control: at a
    [return], or after the statement with [conn] bound or not.  The
    handlers are tried in the order of the source: [asyncssh.Error],
    [OSError], [asyncio.TimeoutError]. *)
Inductive flow :=
| Return (v : bool)
| Next (conn : option Handle).

Definition __asyncScan (gateway : option Connection.t) (gw : option Handle)
  (silent : bool) (n : Negotiation) : M frame bool :=
  modify_self (set_scanned true) ;;;
  fl <- try_except
          (conn <- create_connection n ;; ret (Next conn))
          (fun exc =>
             match exc with
             | asyncssh_Error code reason =>
                 if Z.eqb code 14 then ret (Next None)
                 else print ("asyncssh Error: " +:+ reason) ;;; ret (Return false)
             | _ =>
                 if isinstance_OSError exc then
                   when (bool_decide (errno_of exc = Some EHOSTUNREACH))
                        (when (negb silent) (print "No route to host")) ;;;
                   ret (Return false)
                 else if isinstance_asyncio_TimeoutError exc then
                   modify_self (set_reachable (Some false)) ;;;
                   save ;;;
                   when (negb silent) (print "Timeout") ;;;
                   ret (Return false)
                 else raise exc
             end) ;;
  match fl with
  | Return v => ret v
  | Next conn =>
      try_except (close UnboundLocalError conn) (fun _ => ret tt) ;;;
      when (negb silent) (print "Done") ;;;
      match gateway with
      | None => modify_self (set_distance (Some 0))
      | Some g =>
          match Connection.distance g with
          | Some d => modify_self (set_distance (Some (d + 1)))
          | None => raise TypeError
          end
      end ;;;
      save ;;;
      ret true
  end.

(** The [gateway] argument of [scan]: the string ["auto"], [None] or a
    Connection. *)
Inductive Gateway :=
| auto
| no_gateway
| via (c : Connection.t).

(** The last statements of [scan]: the edge from [gwHost] to the object is
    saved after a successful probe and deleted, if stored, after a failed
    one. *)
Definition bookkeeping (done : bool) (gwHost : option Host.t) : M frame bool :=
  f <- get ;;
  p <- liftW (Path.__init__ gwHost (self f)) ;;
  (if done then liftW (Path.save p) ;;; ret tt
   else match Path.id p with
        | Some _ => liftW (Path.delete p)
        | None => ret tt
        end) ;;;
  ret done.

Definition scan (gateway : Gateway) (silent : bool) (env : Env) : M frame bool :=
  gateway <- match gateway with
             | auto =>
                 try_except (answer (find_one_gateway_to env))
                            (fun exc => match exc with
                                        | NoPathException => raise exc
                                        | _ => raise exc
                                        end)
             | no_gateway => ret None
             | via c => ret (Some c)
             end ;;
  gw <- match gateway with
        | Some _ => h <- answer (initConnect env) ;; ret (Some h)
        | None => ret None
        end ;;
  done <- __asyncScan gateway gw silent (negotiation env) ;;
  try_except (close AttributeError gw) (fun _ => ret tt) ;;;
  match gateway with
  | None => bookkeeping done None
  | Some g =>
      match host (Connection.endpoint g) with
      | None => ret done
      | Some h => bookkeeping done (Some h)
      end
  end.

(** ** Deleting *)

Section Delete.

(** The Host and Connection registries are collaborators: what
    [self.host.endpoints], [self.host.delete()],
    [Connection.find_all(endpoint=self)] and [connection.delete()] do to the
    world is left open. *)
Variable Host_endpoints : Host.t -> M World (list t).
Variable Host_delete : Host.t -> M World unit.
Variable Connection_find_all : t -> M World (list Connection.t).
Variable Connection_delete : Connection.t -> M World unit.

Definition delete : M frame unit :=
  f <- get ;;
  match id (self f) with
  | None => ret tt
  | Some i =>
      match host (self f) with
      | Some h =>
          eps <- liftW (Host_endpoints h) ;;
          when (Nat.eqb (length eps) 1) (liftW (Host_delete h))
      | None => ret tt
      end ;;;
      connections <- liftW (Connection_find_all (self f)) ;;
      forM_ connections (fun connection => liftW (Connection_delete connection)) ;;;
      edges <- liftW (Path.find_all (self f)) ;;
      forM_ edges (fun path => liftW (Path.delete path)) ;;;
      liftW (execute "DELETE FROM endpoints WHERE id = ?" ;;;
             modify (with_db (with_endpoints
                       (List.filter (fun r => negb (has_id i r))))))
  end.

End Delete.

(** * Vocabulary of the properties *)

(** ** The probe and the scan, read off the code *)

Ltac run :=
  unfold bind, ret, raise, get, modify, try_except, when, answer, liftW,
    modify_self, print, print_line, execute in *; simpl in *.

(** What the callbacks of one negotiation leave in the object. *)
Definition on_callback (cb : Callback) (e : t) : t :=
  match cb with
  | connection_made => set_reachable (Some true) e
  | public_key_auth_requested => set_auth (auth e ∪ {["privkey"]}) e
  | password_auth_requested => set_auth (auth e ∪ {["password"]}) e
  | kbdint_auth_requested => set_auth (auth e ∪ {["kbdint"]}) e
  | auth_banner_received | auth_completed => e
  end.

Definition observed (cbs : list Callback) (e : t) : t :=
  fold_left (fun e cb => on_callback cb e) cbs e.

Ltac run_save :=
  unfold save, update_endpoint, insert_endpoint; run.

Definition printed (line : string) (f : frame) : frame :=
  {| self := self f;
     world := {| db := db (world f); queries := queries (world f);
                 stdout := stdout (world f) ++ [line] |} |}.

Definition noticed (silent : bool) (line : string) (f : frame) : frame :=
  if silent then f else printed line f.

(** The frame when the negotiation ends: [scanned] is set and the
    callbacks have run. *)
Definition probed (n : Negotiation) (f : frame) : frame :=
  {| self := observed (callbacks n) (set_scanned true (self f));
     world := world f |}.

(** The negotiation went as far as the authentication: the connection was
    returned, or the service denied the login (code 14). *)
Definition completes (n : Negotiation) : bool :=
  match ending n with
  | returns _ => true
  | raises (asyncssh_Error code _) => Z.eqb code 14
  | raises _ => false
  end.

(** The statements of [__asyncScan] after the [try]. *)
Definition finish (gateway : option Connection.t) (silent : bool) : M frame bool :=
  when (negb silent) (print "Done") ;;;
  match gateway with
  | None => modify_self (set_distance (Some 0))
  | Some g =>
      match Connection.distance g with
      | Some d => modify_self (set_distance (Some (d + 1)))
      | None => raise TypeError
      end
  end ;;;
  save ;;;
  ret true.

(** The gateway [scan] uses, and the tunnel it opens on it. *)
Definition resolve (gateway : Gateway) (env : Env) : result (option Connection.t) :=
  match gateway with
  | auto => find_one_gateway_to env
  | no_gateway => Ok None
  | via c => Ok (Some c)
  end.

Definition tunnel (g : option Connection.t) (env : Env) : result (option Handle) :=
  match g with
  | None => Ok None
  | Some _ => match initConnect env with
              | Ok h => Ok (Some h)
              | Raise exc => Raise exc
              end
  end.

(** ** Route edges *)

(** The table after the bookkeeping for the edge from [s] to [d]. *)
Definition route_paths (done : bool) (s d : option Z) (rows : list PathRow)
  : list PathRow :=
  match List.find (Path.is_edge s d) rows with
  | Some r =>
      if done
      then map (fun r' => if Z.eqb (p_id r') (p_id r)
                          then {| p_id := p_id r; p_src := s; p_dst := d |}
                          else r') rows
      else List.filter (fun r' => negb (Z.eqb (p_id r') (p_id r))) rows
  | None =>
      if done
      then (rows ++ [{| p_id := next_id (map p_id rows); p_src := s; p_dst := d |}])%list
      else rows
  end.

Definition route_world (done : bool) (gwHost : option Host.t) (e : t) (w : World)
  : World :=
  let stored := List.find (Path.is_edge (Path.src_id gwHost) (id e)) (paths (db w)) in
  {| db := with_paths (route_paths done (Path.src_id gwHost) (id e)) (db w);
     queries :=
       (queries w ++ ["SELECT id FROM paths WHERE src=? AND dst=?"]
        ++ if done
           then [match stored with
                 | Some _ => "UPDATE paths SET src = ?, dst = ? WHERE id = ?"
                 | None => "INSERT INTO paths(src,dst) VALUES (?,?)"
                 end]
           else match stored with
                | Some _ => ["DELETE FROM paths WHERE id = ?"]
                | None => []
                end)%list;
     stdout := stdout w |}.

Definition edge_count (s d : option Z) (rows : list PathRow) : nat :=
  length (List.filter (Path.is_edge s d) rows).

Definition other_edges (s d : option Z) (rows : list PathRow) : list PathRow :=
  List.filter (fun r => negb (Path.is_edge s d r)) rows.

(** The exceptions [__asyncScan] has a handler for. *)
Definition handled (exc : Exn) : bool :=
  match exc with
  | asyncssh_Error _ _ | OSError _ | asyncio_TimeoutError => true
  | _ => false
  end.

(** ** Objects and the store *)

(** The object mirrors the store: it has no id and the store has no row of
    its identity, or its id names a stored row and no other row has its
    identity. *)
Definition attached (e : t) (w : World) : bool :=
  let rows := endpoints (db w) in
  match id e with
  | Some i =>
      existsb (has_id i) rows
      && forallb (fun r => implb (has_identity (ip e) (port e) r) (has_id i r)) rows
  | None => negb (existsb (has_identity (ip e) (port e)) rows)
  end.

(** A computation that leaves the tables and the output as they are, adds
    to the log of statements, and whose result depends on the world
    through the tables only. *)
Definition reads_only {A} (m : M World A) : Prop :=
  ∀ w, db (m w).2 = db w
       ∧ stdout (m w).2 = stdout w
       ∧ (∃ qs, queries (m w).2 = (queries w ++ qs)%list)
       ∧ ∀ w2, db w2 = db w → (m w2).1 = (m w).1.


(** ** Searching *)



(** [sub] occurs in [s], as it is written. *)
Fixpoint startswith (p s : string) : bool :=
  match p, s with
  | EmptyString, _ => true
  | String _ _, EmptyString => false
  | String c p', String d s' => Ascii.eqb c d && startswith p' s'
  end.

Fixpoint occurs (sub s : string) : bool :=
  startswith sub s
  || match s with
     | EmptyString => false
     | String _ s' => occurs sub s'
     end.






(** The bookkeeping of the edge from [origin] to [dst], between the table
    [before] the scan and the table [after] it. *)
Definition edge_kept (ok : bool) (origin dst : option Z)
  (before after : list PathRow) : Prop :=
  edge_count origin dst after
  = (if ok then Nat.max 1 (edge_count origin dst before)
     else Nat.pred (edge_count origin dst before))
  ∧ other_edges origin dst after = other_edges origin dst before.

(** The last clause of C1 as the specification states it: a scan without a
    gateway does no edge bookkeeping. *)
Definition no_bookkeeping_without_gateway : Prop :=
  ∀ silent env f r f',
    scan no_gateway silent env f = (r, f') →
    paths (db (world f')) = paths (db (world f)).

(** ** Failures of the network *)

(** [errno.ENETUNREACH], as Linux numbers it. *)
Definition ENETUNREACH : Z := 101.

(** The notice of C8 as the specification states it: a probe that fails on
    the network and is not silent prints one. *)
Definition unreachable_reported : Prop :=
  ∀ gateway gw n f errno,
    ending n = raises (OSError errno) →
    stdout (world (__asyncScan gateway gw false n f).2) ≠ stdout (world f).

(** ** Invariants of the object *)

(** The invariants as the specification states them. *)
Definition reachable_iff_distance (e : t) : Prop :=
  reachable e = Some true ↔ is_Some (distance e).


(** A sequence of scans of one object. *)
Fixpoint scans (l : list (Gateway * bool * Env)) (f : frame) : frame :=
  match l with
  | [] => f
  | (gateway, silent, env) :: l' => scans l' (scan gateway silent env f).2
  end.




(** [distance] is set only on an Endpoint that was reached. *)
Definition distance_only_if_reachable (e : t) : Prop :=
  is_Some (distance e) → reachable e = Some true.

(** A negotiation that reaches the authentication has made the connection. *)
Definition connects (env : Env) : Prop :=
  completes (negotiation env) = true →
  connection_made ∈ callbacks (negotiation env).

(** The uniqueness the schema enforces on (ip, port). *)
Definition identity_key (rows : list EndpointRow) : Prop :=
  ∀ r1 r2, r1 ∈ rows → r2 ∈ rows →
           r_ip r1 = r_ip r2 → r_port r1 = r_port r2 → r_id r1 = r_id r2.

(** ** Saving and loading *)

(** The id under which [save] stores the object, and the table it leaves. *)
Definition saved_id (e : t) (rows : list EndpointRow) : Z :=
  match id e with
  | Some i => i
  | None => next_id (map r_id rows)
  end.

Definition saved_rows (e : t) (rows : list EndpointRow) : list EndpointRow :=
  match id e with
  | Some i => map (fun r => if has_id i r then row_of i e else r) rows
  | None => (rows ++ [row_of (next_id (map r_id rows)) e])%list
  end.

(** The fields that a saved object and the object loaded from its row
    share. *)
Definition same_record (e e' : t) : Prop :=
  ip e' = ip e ∧ port e' = port e ∧ scope e' = scope e
  ∧ scanned e' = scanned e ∧ reachable e' = reachable e
  ∧ distance e' = distance e ∧ auth e' = auth e.

(** The id [save] stores in the column [found]. *)
Definition found_id (e : t) : option Z :=
  match found e with Some x => id x | None => None end.


(** ** Scans that return *)

(** The negotiation ends in a way [__asyncScan] provides for. *)
Definition provided_for (n : Negotiation) : bool :=
  match ending n with
  | returns _ => true
  | raises exc => handled exc
  end.

(** Two frames that differ in what was printed only. *)
Definition same_but_stdout (f1 f2 : frame) : Prop :=
  self f1 = self f2
  ∧ db (world f1) = db (world f2)
  ∧ queries (world f1) = queries (world f2).

(** The distance a successful probe assigns; none when the gateway has
    none, and the addition raises. *)
Definition new_distance (gateway : option Connection.t) : option Z :=
  match gateway with
  | None => Some 0
  | Some g => match Connection.distance g with
              | Some d => Some (d + 1)
              | None => None
              end
  end.

(** The stored edges have distinct ids and no edge is stored twice. *)
Definition edges_once (rows : list PathRow) : Prop :=
  NoDup (map p_id rows) ∧ ∀ s d, (edge_count s d rows <= 1)%nat.

(** The origin of the edge a scan through [g] keeps the books of: the Host
    of the gateway's Endpoint, no origin for a direct scan; there is no
    such edge when the gateway's Endpoint has no Host. *)
Definition origin (g : option Connection.t) : option (option Z) :=
  match g with
  | None => Some None
  | Some c => match host (Connection.endpoint c) with
              | Some h => Some (Some (Host.id h))
              | None => None
              end
  end.

(** ** Deleting *)

(** The table of edges after the edges of the ids [ids] were deleted one
    by one. *)
Definition without_ids (ids : list Z) (rows : list PathRow) : list PathRow :=
  fold_left (fun rows i => List.filter (fun r => negb (Z.eqb (p_id r) i)) rows)
            ids rows.

(** A computation on the store that raises in no world. *)
Definition returns_always {A} (m : M World A) : Prop :=
  ∀ w, ∃ a w', m w = (Ok a, w').

(** ** Worked scans *)

(** The verdict of [ipaddress.ip_address] on the addresses of the examples. *)
Definition example_ip_address (s : string) : bool :=
  bool_decide (s ∈ ["10.0.0.1"; "10.0.0.5"; "10.0.0.6"]).

Definition empty_world : World :=
  {| db := {| endpoints := []; paths := []; hosts := [] |};
     queries := []; stdout := [] |}.

(** A workspace in which 10.0.0.1:22, on Host 7, was reached directly. *)
Definition gateway_host : Host.t := {| Host.id := 7 |}.

Definition gateway_endpoint : t :=
  mk "10.0.0.1" 22 (Some gateway_host) (Some 1) true true (Some true) (Some 0)
     None {["password"]}.

Definition gateway_connection : Connection.t :=
  {| Connection.endpoint := gateway_endpoint; Connection.distance := Some 1 |}.

Definition gateway_world : World :=
  {| db := {| endpoints := [row_of 1 gateway_endpoint];
              paths := [{| p_id := 1; p_src := None; p_dst := Some 1 |}];
              hosts := [7] |};
     queries := []; stdout := [] |}.

Definition open_handle : Handle := {| close_error := None |}.

(** The service offers two mechanisms and denies the login. *)
Definition denied : Negotiation :=
  {| callbacks := [connection_made; password_auth_requested;
                   public_key_auth_requested];
     ending := raises (asyncssh_Error 14 "Permission denied") |}.

(** The host never answers. *)
Definition never_answers : Negotiation :=
  {| callbacks := []; ending := raises asyncio_TimeoutError |}.

(** The service offers a mechanism and then stalls until the deadline. *)
Definition stalls : Negotiation :=
  {| callbacks := [connection_made; password_auth_requested];
     ending := raises asyncio_TimeoutError |}.

Definition no_route : Negotiation :=
  {| callbacks := []; ending := raises (OSError (Some EHOSTUNREACH)) |}.

Definition env_of (n : Negotiation) : Env :=
  {| find_one_gateway_to := Raise NoPathException;
     initConnect := Ok open_handle;
     negotiation := n |}.

Definition target (ip : string) (w : World) : frame :=
  {| self := fresh ip 22; world := w |}.


(** 10.0.0.6:22 scanned through the gateway. *)
Definition tunneled : result bool * frame :=
  scan (via gateway_connection) true (env_of denied) (target "10.0.0.6" gateway_world).

(** After it, a second scan through the gateway that reaches the service,
    and one that finds no route. *)
Definition tunneled_again : result bool * frame :=
  scan (via gateway_connection) true (env_of denied) tunneled.2.

Definition tunnel_lost : result bool * frame :=
  scan (via gateway_connection) true (env_of no_route) tunneled.2.

(** 10.0.0.5:22 scanned directly and reached. *)
Definition reached : result bool * frame :=
  scan no_gateway true (env_of denied) (target "10.0.0.5" empty_world).

(** 10.0.0.5:22 scanned directly when the service stalls after its offer. *)
Definition stalled : result bool * frame :=
  scan no_gateway true (env_of stalls) (target "10.0.0.5" empty_world).

(** The invariant of C3 as the specification states it: it holds after
    any sequence of scans. *)
Definition reachable_iff_distance_always : Prop :=
  ∀ l f, reachable_iff_distance (self f) →
         reachable_iff_distance (self (scans l f)).


(** The service offers the public key only and denies the login. *)
Definition offers_key : Negotiation :=
  {| callbacks := [connection_made; public_key_auth_requested];
     ending := raises (asyncssh_Error 14 "Permission denied") |}.

(** The service closes the connection with a protocol error. *)
Definition protocol_error : Negotiation :=
  {| callbacks := [connection_made];
     ending := raises (asyncssh_Error 2 "Protocol error") |}.

(** The service offers two mechanisms and accepts the login. *)
Definition accepted : Negotiation :=
  {| callbacks := [connection_made; password_auth_requested;
                   public_key_auth_requested];
     ending := returns open_handle |}.

(** A row that names itself as the Endpoint it was found on. *)
Definition looping_row : EndpointRow :=
  {| r_id := 3; r_host := None; r_ip := "10.0.0.5"; r_port := 22;
     r_scanned := false; r_reachable := None; r_distance := None;
     r_auth := None; r_scope := true; r_found := Some 3 |}.

Definition looping_db : DB :=
  {| endpoints := [looping_row]; paths := []; hosts := [] |}.

Definition looping_world : World :=
  {| db := looping_db; queries := []; stdout := [] |}.

(** Registries that hold no Connection and delete nothing. *)
Definition one_endpoint (h : Host.t) : M World (list t) := ret [gateway_endpoint].
Definition keep_host (h : Host.t) : M World unit := ret tt.
Definition no_connections (e : t) : M World (list Connection.t) := ret [].
Definition keep_connection (c : Connection.t) : M World unit := ret tt.

Definition gateway_frame : frame :=
  {| self := gateway_endpoint; world := gateway_world |}.

(** * Properties *)

(** ** Running the monad *)

Lemma frame_eta (f : frame) : {| self := self f; world := world f |} = f.
Proof. by destruct f. Qed.

Lemma ScanSSHClient_run cb f :
  ScanSSHClient cb f = (Ok tt, {| self := on_callback cb (self f); world := world f |}).
Proof. destruct cb; run; try reflexivity; by rewrite frame_eta. Qed.

Lemma callbacks_run cbs f :
  forM_ cbs ScanSSHClient f
  = (Ok tt, {| self := observed cbs (self f); world := world f |}).
Proof.
  revert f. induction cbs as [|cb cbs IH]; intros f.
  - simpl. run. by rewrite frame_eta.
  - simpl. unfold bind. rewrite ScanSSHClient_run. by rewrite IH.
Qed.

Lemma create_connection_run n f :
  create_connection n f
  = (match ending n with returns conn => Ok (Some conn) | raises exc => Raise exc end,
     {| self := observed (callbacks n) (self f); world := world f |}).
Proof.
  unfold create_connection, bind. rewrite callbacks_run.
  by destruct (ending n).
Qed.

(** The callbacks touch [reachable] and [auth] only. *)
Lemma observed_distance cbs e : distance (observed cbs e) = distance e.
Proof.
  revert e. induction cbs as [|cb cbs IH]; intros e; [done|].
  simpl. rewrite IH. by destruct cb.
Qed.

Lemma observed_scanned cbs e : scanned (observed cbs e) = scanned e.
Proof.
  revert e. induction cbs as [|cb cbs IH]; intros e; [done|].
  simpl. rewrite IH. by destruct cb.
Qed.

Lemma observed_identity cbs e :
  ip (observed cbs e) = ip e ∧ port (observed cbs e) = port e
  ∧ id (observed cbs e) = id e.
Proof.
  revert e. induction cbs as [|cb cbs IH]; intros e; [done|].
  simpl. destruct (IH (on_callback cb e)) as (-> & -> & ->). by destruct cb.
Qed.

Lemma observed_nil e : observed [] e = e.
Proof. done. Qed.

(** [save] assigns [id] and nothing else in the object. *)
Lemma save_self f :
  ∃ i, self (save f).2 = set_id i (self f).
Proof.
  run_save. destruct f as [e w]; simpl.
  destruct (id e) as [i|] eqn:Hid; simpl.
  - exists (Some i). destruct (_ && _); simpl; destruct e; simpl in *; by subst.
  - destruct (existsb _ _); simpl.
    + exists None. destruct e; simpl in *; by subst.
    + destruct (List.find _ _); simpl; [by eexists|].
      exists None. destruct e; simpl in *; by subst.
Qed.

Lemma save_distance f : distance (self (save f).2) = distance (self f).
Proof. destruct (save_self f) as [i ->]. done. Qed.

Lemma save_reachable f : reachable (self (save f).2) = reachable (self f).
Proof. destruct (save_self f) as [i ->]. done. Qed.

Lemma save_auth f : auth (self (save f).2) = auth (self f).
Proof. destruct (save_self f) as [i ->]. done. Qed.

Lemma save_scanned f : scanned (self (save f).2) = scanned (self f).
Proof. destruct (save_self f) as [i ->]. done. Qed.

Lemma save_stdout f : stdout (world (save f).2) = stdout (world f).
Proof.
  run_save. destruct f as [e w]; simpl.
  destruct (id e); simpl.
  - by destruct (_ && _).
  - destruct (existsb _ _); simpl; [done|]. by destruct (List.find _ _).
Qed.

Lemma save_paths f : paths (db (world (save f).2)) = paths (db (world f)).
Proof.
  run_save. destruct f as [e w]; simpl.
  destruct (id e); simpl.
  - by destruct (_ && _).
  - destruct (existsb _ _); simpl; [done|]. by destruct (List.find _ _).
Qed.

(** ** The probe, ending by ending *)

Lemma print_run line f : print line f = (Ok tt, printed line f).
Proof. done. Qed.

Lemma when_print_run silent line f :
  when (negb silent) (print line) f = (Ok tt, noticed silent line f).
Proof. destruct silent; [|done]. unfold noticed; simpl. done. Qed.

Lemma pair_eta {A B} (p : A * B) : p = (p.1, p.2).
Proof. by destruct p. Qed.

Lemma asyncScan_completes gateway gw silent n f :
  completes n = true →
  __asyncScan gateway gw silent n f = finish gateway silent (probed n f).
Proof.
  unfold completes, __asyncScan, finish. intros Hc.
  unfold bind at 1. unfold modify_self at 1, modify at 1.
  unfold bind at 1, try_except at 1, bind at 1.
  rewrite create_connection_run. simpl.
  destruct (ending n) as [conn|exc]; simpl.
  - unfold bind at 1. unfold try_except, close.
    destruct (close_error conn); reflexivity.
  - destruct exc; try discriminate Hc. rewrite Hc. reflexivity.
Qed.

Lemma asyncScan_OSError gateway gw silent n f exc :
  ending n = raises exc → isinstance_OSError exc = true →
  __asyncScan gateway gw silent n f
  = (Ok false,
     if bool_decide (errno_of exc = Some EHOSTUNREACH)
     then noticed silent "No route to host" (probed n f)
     else probed n f).
Proof.
  intros He Hos. unfold __asyncScan.
  unfold bind at 1. unfold modify_self at 1, modify at 1.
  unfold bind at 1, try_except at 1, bind at 1.
  rewrite create_connection_run, He.
  destruct exc; try discriminate Hos; simpl; unfold probed.
  - unfold bind at 1.
    destruct (bool_decide (errno = Some EHOSTUNREACH)); simpl; [|done].
    rewrite when_print_run. done.
  - done.
Qed.

(** The deadline is an [OSError] without [errno]: the second handler takes
    it, and the third is never reached. *)
Lemma asyncScan_timeout gateway gw silent n f :
  ending n = raises asyncio_TimeoutError →
  __asyncScan gateway gw silent n f = (Ok false, probed n f).
Proof.
  intros He. by rewrite (asyncScan_OSError _ _ _ _ _ _ He).
Qed.

Lemma asyncScan_protocol_error gateway gw silent n f code reason :
  ending n = raises (asyncssh_Error code reason) → code ≠ 14 →
  __asyncScan gateway gw silent n f
  = (Ok false, printed ("asyncssh Error: " +:+ reason) (probed n f)).
Proof.
  intros He Hc. unfold __asyncScan.
  unfold bind at 1. unfold modify_self at 1, modify at 1.
  unfold bind at 1, try_except at 1, bind at 1.
  rewrite create_connection_run, He. simpl.
  destruct (Z.eqb_spec code 14) as [|_]; [done|]. reflexivity.
Qed.

(** The result of the statements after the [try]. *)
Lemma finish_distance gateway silent f r f' :
  finish gateway silent f = (Ok r, f') →
  r = true
  ∧ distance (self f')
    = Some (match gateway with
            | None => 0
            | Some g => default 0 (Connection.distance g) + 1
            end)
  ∧ reachable (self f') = reachable (self f)
  ∧ auth (self f') = auth (self f).
Proof.
  unfold finish. unfold bind at 1. rewrite when_print_run.
  unfold bind at 1.
  destruct gateway as [g|]; [destruct (Connection.distance g) as [d|]|];
    simpl; try discriminate.
  - unfold bind at 1.
    match goal with |- context [save ?x] =>
      pose proof (save_distance x) as Hd; pose proof (save_reachable x) as Hr;
      pose proof (save_auth x) as Ha; destruct (save x) as [[[]|exc] f2] end;
      simpl in *; [|discriminate].
    intros [= <- <-]. rewrite Hd, Hr, Ha. by destruct silent.
  - unfold bind at 1.
    match goal with |- context [save ?x] =>
      pose proof (save_distance x) as Hd; pose proof (save_reachable x) as Hr;
      pose proof (save_auth x) as Ha; destruct (save x) as [[[]|exc] f2] end;
      simpl in *; [|discriminate].
    intros [= <- <-]. rewrite Hd, Hr, Ha. by destruct silent.
Qed.

(** ** The scan, step by step *)

Lemma scan_run gateway silent env f :
  scan gateway silent env f
  = match resolve gateway env with
    | Raise exc => (Raise exc, f)
    | Ok g =>
        match tunnel g env with
        | Raise exc => (Raise exc, f)
        | Ok gw =>
            match __asyncScan g gw silent (negotiation env) f with
            | (Raise exc, f1) => (Raise exc, f1)
            | (Ok done, f1) =>
                match g with
                | None => bookkeeping done None f1
                | Some c =>
                    match host (Connection.endpoint c) with
                    | None => (Ok done, f1)
                    | Some h => bookkeeping done (Some h) f1
                    end
                end
            end
        end
    end.
Proof.
  unfold scan, resolve, tunnel. unfold bind at 1.
  assert (Hres :
    (match gateway with
     | auto => try_except (answer (find_one_gateway_to env))
                 (fun exc => match exc with
                             | NoPathException => raise exc
                             | _ => raise exc
                             end)
     | no_gateway => ret None
     | via c => ret (Some c)
     end) f
    = (match gateway with
       | auto => find_one_gateway_to env
       | no_gateway => Ok None
       | via c => Ok (Some c)
       end, f)).
  { destruct gateway; try reflexivity.
    unfold try_except, answer, raise.
    destruct (find_one_gateway_to env) as [g|exc]; [done|]. by destruct exc. }
  rewrite Hres. clear Hres.
  destruct (match gateway with auto => _ | no_gateway => _ | via c => _ end)
    as [g|exc]; [|done].
  unfold bind at 1.
  destruct g as [c|].
  - unfold bind at 1, answer at 1.
    destruct (initConnect env) as [h|exc]; [|done]. simpl.
    unfold bind at 1.
    destruct (__asyncScan _ _ _ _ f) as [[b|exc] f1]; [|done].
    unfold bind at 1, try_except, close.
    destruct (close_error h); simpl;
      by destruct (host (Connection.endpoint c)).
  - simpl. unfold bind at 1.
    destruct (__asyncScan _ _ _ _ f) as [[b|exc] f1]; [|done].
    reflexivity.
Qed.

(** ** Route bookkeeping on the [paths] table *)

Lemma bookkeeping_run done gwHost f :
  bookkeeping done gwHost f
  = (Ok done, {| self := self f;
                 world := route_world done gwHost (self f) (world f) |}).
Proof.
  destruct f as [e [[eps ps hs] qs out]].
  unfold bookkeeping, route_world, route_paths, Path.__init__, Path.save,
    Path.delete. run.
  unfold with_db, with_paths; simpl.
  destruct (List.find _ ps) as [r|] eqn:Hf; destruct done; simpl;
    rewrite <- ?app_assoc; simpl; rewrite ?app_nil_r; reflexivity.
Qed.

Lemma is_edge_row s d r :
  Path.is_edge s d r = true → r = {| p_id := p_id r; p_src := s; p_dst := d |}.
Proof.
  unfold Path.is_edge. destruct r as [i rs rd]; simpl.
  destruct d as [j|]; rewrite ?andb_false_r; [|done].
  rewrite andb_true_iff, !bool_decide_eq_true. by intros [-> ->].
Qed.

Lemma find_is_edge s d rows r :
  List.find (Path.is_edge s d) rows = Some r →
  r ∈ rows ∧ Path.is_edge s d r = true.
Proof.
  intros H. apply find_some in H as [Hin ?]. split; [|done].
  by apply list_elem_of_In.
Qed.

Lemma same_id_same_row (rows : list PathRow) (a b : PathRow) :
  NoDup (map p_id rows) → a ∈ rows → b ∈ rows → p_id a = p_id b → a = b.
Proof.
  induction rows as [|x rows IH]; simpl; intros Hnd Ha Hb Hid.
  - by apply elem_of_nil in Ha.
  - apply NoDup_cons in Hnd as [Hx Hnd].
    apply elem_of_cons in Ha as [->|Ha]; apply elem_of_cons in Hb as [->|Hb].
    + done.
    + exfalso. apply Hx. rewrite Hid. apply list_elem_of_fmap. by exists b.
    + exfalso. apply Hx. rewrite <- Hid. apply list_elem_of_fmap. by exists a.
    + by apply IH.
Qed.

(** A successful probe does not touch a table that already holds the edge. *)
Lemma route_paths_kept s d rows r :
  NoDup (map p_id rows) →
  List.find (Path.is_edge s d) rows = Some r →
  route_paths true s d rows = rows.
Proof.
  intros Hnd Hf. unfold route_paths. rewrite Hf.
  destruct (find_is_edge _ _ _ _ Hf) as [Hin He].
  rewrite <- (map_id rows) at 2. apply map_ext_in. intros r' Hr'.
  destruct (Z.eqb_spec (p_id r') (p_id r)) as [Heq|]; [|done].
  apply list_elem_of_In in Hr'.
  rewrite (same_id_same_row rows r' r Hnd Hr' Hin Heq).
  symmetry. by apply is_edge_row.
Qed.

Lemma filter_other_id (rows : list PathRow) (i : Z) :
  i ∉ map p_id rows →
  List.filter (fun r' => negb (Z.eqb (p_id r') i)) rows = rows.
Proof.
  induction rows as [|x rows IH]; simpl; intros Hi; [done|].
  apply not_elem_of_cons in Hi as [Hx Hi].
  destruct (Z.eqb_spec (p_id x) i) as [|_]; [congruence|]. simpl.
  by rewrite IH.
Qed.

(** A failed probe takes the stored edge out and leaves the other rows. *)
Lemma route_paths_removed s d rows r :
  NoDup (map p_id rows) →
  List.find (Path.is_edge s d) rows = Some r →
  edge_count s d (route_paths false s d rows) = Nat.pred (edge_count s d rows)
  ∧ other_edges s d (route_paths false s d rows) = other_edges s d rows.
Proof.
  intros Hnd Hf. unfold route_paths. rewrite Hf.
  unfold edge_count, other_edges.
  revert Hnd Hf. induction rows as [|x rows IH]; simpl; intros Hnd Hf; [done|].
  apply NoDup_cons in Hnd as [Hx Hnd].
  destruct (Path.is_edge s d x) eqn:Hex.
  - injection Hf as <-. rewrite Z.eqb_refl. simpl.
    rewrite filter_other_id by done. done.
  - destruct (find_is_edge _ _ _ _ Hf) as [Hin _].
    destruct (Z.eqb_spec (p_id x) (p_id r)) as [Heq|_].
    + exfalso. apply Hx. rewrite Heq. apply list_elem_of_fmap. by exists r.
    + simpl. rewrite Hex. simpl. destruct (IH Hnd Hf) as [-> ->]. done.
Qed.

Lemma find_none_count s d rows :
  List.find (Path.is_edge s d) rows = None → edge_count s d rows = 0%nat.
Proof.
  unfold edge_count. induction rows as [|x rows IH]; simpl; [done|].
  destruct (Path.is_edge s d x); [done|]. apply IH.
Qed.

Lemma find_some_count s d rows r :
  List.find (Path.is_edge s d) rows = Some r → (1 <= edge_count s d rows)%nat.
Proof.
  unfold edge_count. induction rows as [|x rows IH]; simpl; [done|].
  destruct (Path.is_edge s d x); simpl; [lia|]. apply IH.
Qed.

(** The bookkeeping of one edge, counted: after a success the edge is
    stored, once if it was absent and as often as before otherwise; after
    a failure one stored copy is gone; the other rows stay. *)
Lemma route_paths_count done s d rows :
  NoDup (map p_id rows) → (done = true → is_Some d) →
  edge_count s d (route_paths done s d rows)
  = (if done then Nat.max 1 (edge_count s d rows)
     else Nat.pred (edge_count s d rows))
  ∧ other_edges s d (route_paths done s d rows) = other_edges s d rows.
Proof.
  intros Hnd Hd.
  destruct (List.find (Path.is_edge s d) rows) as [r|] eqn:Hf.
  - destruct done.
    + rewrite (route_paths_kept _ _ _ _ Hnd Hf).
      pose proof (find_some_count _ _ _ _ Hf). split; [lia|done].
    + by apply (route_paths_removed _ _ _ r).
  - pose proof (find_none_count _ _ _ Hf) as H0.
    unfold route_paths. rewrite Hf. destruct done.
    + destruct (Hd eq_refl) as [i ->].
      unfold edge_count, other_edges in *.
      rewrite !List.filter_app, length_app. simpl.
      assert (Hnew : Path.is_edge s (Some i)
                {| p_id := next_id (map p_id rows); p_src := s; p_dst := Some i |}
              = true).
      { unfold Path.is_edge. simpl. by rewrite !bool_decide_eq_true_2. }
      rewrite Hnew. simpl. rewrite H0, app_nil_r. done.
    + rewrite H0. done.
Qed.

(** ** Probes that do not reach the authentication *)

Lemma asyncScan_unhandled gateway gw silent n f exc :
  ending n = raises exc → handled exc = false →
  __asyncScan gateway gw silent n f = (Raise exc, probed n f).
Proof.
  intros He Hh. unfold __asyncScan.
  unfold bind at 1. unfold modify_self at 1, modify at 1.
  unfold bind at 1, try_except at 1, bind at 1.
  rewrite create_connection_run, He. simpl.
  destruct exc; try discriminate Hh; reflexivity.
Qed.

Lemma probed_distance n f : distance (self (probed n f)) = distance (self f).
Proof. unfold probed; simpl. by rewrite observed_distance. Qed.

Lemma noticed_self silent line f : self (noticed silent line f) = self f.
Proof. by destruct silent. Qed.

(** Such a probe never returns [True] and leaves [distance] as it was. *)
Lemma asyncScan_fails gateway gw silent n f :
  completes n = false →
  (__asyncScan gateway gw silent n f).1 ≠ Ok true
  ∧ distance (self (__asyncScan gateway gw silent n f).2) = distance (self f).
Proof.
  unfold completes. intros Hc.
  destruct (ending n) as [conn|exc] eqn:He; [done|].
  destruct (handled exc) eqn:Hh.
  - destruct exc; try discriminate Hh.
    + rewrite (asyncScan_protocol_error _ _ _ _ _ _ _ He) by (by intros ->).
      simpl. split; [done|]. by rewrite observed_distance.
    + rewrite (asyncScan_OSError _ _ _ _ _ _ He eq_refl). simpl. split; [done|].
      destruct (bool_decide _); rewrite ?noticed_self; apply probed_distance.
    + rewrite (asyncScan_timeout _ _ _ _ _ He). simpl. split; [done|].
      apply probed_distance.
  - rewrite (asyncScan_unhandled _ _ _ _ _ _ He Hh). simpl. split; [done|].
    by rewrite observed_distance.
Qed.

Lemma asyncScan_true gateway gw silent n f f' :
  __asyncScan gateway gw silent n f = (Ok true, f') →
  completes n = true ∧ finish gateway silent (probed n f) = (Ok true, f').
Proof.
  intros H. destruct (completes n) eqn:Hc.
  - split; [done|]. by rewrite <- (asyncScan_completes gateway gw).
  - destruct (asyncScan_fails gateway gw silent n f Hc) as [Hne _].
    rewrite H in Hne. by destruct Hne.
Qed.

(** ** Distance after a success, the no-path error, the finders *)

(** C2. A probe that succeeds leaves [distance = 0] when no gateway was
    used, and [distance = d + 1] when it went through a gateway: the
    gateway then has a distance [d]. *)
Theorem successful_probe_distance gateway gw silent n f f' :
  __asyncScan gateway gw silent n f = (Ok true, f') →
  match gateway with
  | None => distance (self f') = Some 0
  | Some g => ∃ d, Connection.distance g = Some d
                   ∧ distance (self f') = Some (d + 1)
  end.
Proof.
  intros H. apply asyncScan_true in H as [_ H].
  pose proof (finish_distance _ _ _ _ _ H) as (_ & Hd & _).
  destruct gateway as [g|]; [|done].
  destruct (Connection.distance g) as [d|] eqn:Hg.
  - exists d. by split.
  - exfalso. revert H. unfold finish. unfold bind at 1.
    rewrite when_print_run. unfold bind at 1. rewrite Hg. done.
Qed.

(** C5. In automatic mode, when the registry answers with the no-path
    error, [scan] raises that error: nothing is returned, the object and
    the world are as before, and in particular the outcome is not the
    [False] of a failed probe. *)
Theorem no_path_propagates silent env f :
  find_one_gateway_to env = Raise NoPathException →
  scan auto silent env f = (Raise NoPathException, f)
  ∧ ∀ b f', scan auto silent env f ≠ (Ok b, f').
Proof.
  intros H. rewrite scan_run. simpl. rewrite H. split; [done|].
  intros b f'. discriminate.
Qed.

(** C9. With a [found] filter, [find_all] reads the unbound name
    [endpoint] while it builds the parameters of the query, and raises
    before any statement runs. *)
Theorem find_all_found_raises ip_address depth scope e w :
  find_all ip_address depth scope (Some e) w = (Raise NameError, w).
Proof. unfold find_all. by destruct scope. Qed.

Lemma partition_no_sep c s :
  contains c s = false → partition c s = (s, EmptyString, EmptyString).
Proof.
  induction s as [|a s IH]; simpl; [done|].
  intros H. apply orb_false_iff in H as [-> H]. by rewrite IH.
Qed.

(** C10. [find_one] raises [ValueError] on an ["ip:port"] string without a
    colon, and returns [None] without running a statement when
    [endpoint_id] is 0 or when neither argument is given. *)
Theorem find_one_edge_cases ip_address depth s w :
  contains ":" s = false →
  find_one ip_address (S depth) None (Some s) w = (Raise ValueError, w)
  ∧ (∀ ip_port, find_one ip_address (S depth) (Some 0) ip_port w = (Ok None, w))
  ∧ find_one ip_address (S depth) None None w = (Ok None, w).
Proof.
  intros H. split; [|split]; [|done|done].
  simpl. by rewrite (partition_no_sep _ _ H).
Qed.

(** ** Saving an object that mirrors the store *)

Lemma has_identity_row_of i e : has_identity (ip e) (port e) (row_of i e) = true.
Proof.
  unfold has_identity, row_of; simpl.
  by rewrite String.eqb_refl, N.eqb_refl.
Qed.

Lemma no_conflict (A B : EndpointRow → bool) rows :
  forallb (fun r => implb (A r) (B r)) rows = true →
  existsb (fun r => A r && negb (B r)) rows = false.
Proof.
  induction rows as [|x rows IH]; simpl; [done|].
  intros [Hx Hr]%andb_true_iff. rewrite (IH Hr).
  by destruct (A x), (B x).
Qed.

Lemma find_updated i e rows :
  existsb (has_id i) rows = true →
  forallb (fun r => implb (has_identity (ip e) (port e) r) (has_id i r)) rows = true →
  List.find (has_identity (ip e) (port e))
            (map (fun r => if has_id i r then row_of i e else r) rows)
  = Some (row_of i e).
Proof.
  induction rows as [|x rows IH]; simpl; [done|].
  intros Hex [Hx Hr]%andb_true_iff.
  destruct (has_id i x) eqn:Hi.
  - by rewrite has_identity_row_of.
  - simpl in Hex. destruct (has_identity (ip e) (port e) x); [done|].
    by apply IH.
Qed.

Lemma find_inserted i e rows :
  existsb (has_identity (ip e) (port e)) rows = false →
  List.find (has_identity (ip e) (port e)) (rows ++ [row_of i e])
  = Some (row_of i e).
Proof.
  induction rows as [|x rows IH]; simpl.
  - intros _. by rewrite has_identity_row_of.
  - intros [-> Hr]%orb_false_iff. by apply IH.
Qed.

Lemma row_of_set_id i j e : row_of i (set_id j e) = row_of i e.
Proof. done. Qed.

Lemma save_attached f :
  attached (self f) (world f) = true →
  ∃ i f', save f = (Ok tt, f')
          ∧ self f' = set_id (Some i) (self f)
          ∧ List.find (has_identity (ip (self f)) (port (self f)))
                      (endpoints (db (world f')))
            = Some (row_of i (self f)).
Proof.
  destruct f as [e [[eps ps hs] qs out]]. unfold attached; simpl.
  run_save. destruct (id e) as [i|] eqn:Hid; simpl.
  - intros [Hex Hall]%andb_true_iff.
    rewrite Hex, (no_conflict _ _ _ Hall). simpl.
    eexists i, _. split; [reflexivity|]. simpl. split.
    + destruct e; simpl in *; by subst.
    + by apply find_updated.
  - intros Hno%negb_true_iff. rewrite Hno. simpl.
    rewrite (find_inserted _ _ _ Hno). simpl.
    eexists _, _. split; [reflexivity|]. simpl. split; [done|].
    by apply find_inserted.
Qed.

Lemma attached_same_identity e e' w :
  ip e' = ip e → port e' = port e → id e' = id e →
  attached e' w = attached e w.
Proof. unfold attached. by intros -> -> ->. Qed.

Lemma observed_reachable_kept cbs e :
  connection_made ∉ cbs → reachable (observed cbs e) = reachable e.
Proof.
  revert e. induction cbs as [|cb cbs IH]; intros e Hn; [done|].
  apply not_elem_of_cons in Hn as [Hcb Hn]. simpl. rewrite IH by done.
  by destruct cb.
Qed.

Lemma observed_reachable_made cbs e :
  connection_made ∈ cbs → reachable (observed cbs e) = Some true.
Proof.
  revert e. induction cbs as [|cb cbs IH]; intros e Hin.
  - by apply elem_of_nil in Hin.
  - simpl. destruct (decide (connection_made ∈ cbs)) as [Hc|Hc].
    + by apply IH.
    + apply elem_of_cons in Hin as [<-|]; [|done].
      by rewrite observed_reachable_kept.
Qed.

Lemma scan_failed_probe gateway' silent env f g gw f1 :
  resolve gateway' env = Ok g → tunnel g env = Ok gw →
  __asyncScan g gw silent (negotiation env) f = (Ok false, f1) →
  ∃ f2, scan gateway' silent env f = (Ok false, f2)
        ∧ self f2 = self f1
        ∧ endpoints (db (world f2)) = endpoints (db (world f1))
        ∧ stdout (world f2) = stdout (world f1).
Proof.
  intros Hr Ht Hp. rewrite scan_run, Hr, Ht, Hp.
  destruct g as [c|]; [destruct (host (Connection.endpoint c))|];
    rewrite ?bookkeeping_run; eexists; (split; [reflexivity|]); done.
Qed.

(** C4. What the code does at the deadline.  [asyncio.TimeoutError] being
    an [OSError] without [errno], the handler of [OSError] takes it: the
    probe returns [False] with [scanned = True] in the object and nothing
    else done.  [reachable] is what the callbacks left, [True] if the
    connection was made and what it was before otherwise; no statement
    runs, the store is as it was, and nothing is printed, silent or not.
    The scan that ran the probe returns [False] and leaves the rows of the
    Endpoints and the output as they were.  The handler that marks the
    Endpoint unreachable, saves it and prints the notice is never
    entered. *)
Theorem deadline_caught_as_OSError gateway gw silent n f :
  ending n = raises asyncio_TimeoutError →
  ∃ f',
    __asyncScan gateway gw silent n f = (Ok false, f')
    ∧ world f' = world f
    ∧ self f' = observed (callbacks n) (set_scanned true (self f))
    ∧ scanned (self f') = true
    ∧ reachable (self f')
      = (if bool_decide (connection_made ∈ callbacks n) then Some true
         else reachable (self f))
    ∧ (∀ gateway' env,
         negotiation env = n → resolve gateway' env = Ok gateway →
         tunnel gateway env = Ok gw →
         ∃ f'', scan gateway' silent env f = (Ok false, f'')
                ∧ self f'' = self f'
                ∧ endpoints (db (world f'')) = endpoints (db (world f))
                ∧ stdout (world f'') = stdout (world f)).
Proof.
  intros He.
  pose proof (asyncScan_timeout gateway gw silent n f He) as Hp.
  exists (probed n f). split; [done|]. split; [done|]. split; [done|].
  split; [simpl; by rewrite observed_scanned|]. split.
  - simpl. case_bool_decide as Hc.
    + by apply observed_reachable_made.
    + by rewrite observed_reachable_kept.
  - intros gateway' env <- Hr Ht.
    destruct (scan_failed_probe _ _ _ _ _ _ _ Hr Ht Hp)
      as (f3 & Hs & Hself & Hep & Hout).
    exists f3. by repeat split.
Qed.

(** C8, as the code has it.  When the negotiation ends with an [OSError],
    whatever its [errno], the probe returns [False], runs no statement and
    leaves the store as it was; the object has [scanned] set and, no
    connection having been made, the [reachable] it had.  The notice is
    printed for [EHOSTUNREACH] only, unless silent: for any other [errno]
    nothing is printed.  The scan that ran the probe returns [False] and
    leaves the rows of the Endpoints as they were. *)
Theorem network_failure_leaves_store gateway gw silent n f errno :
  ending n = raises (OSError errno) →
  ∃ f',
    __asyncScan gateway gw silent n f = (Ok false, f')
    ∧ db (world f') = db (world f)
    ∧ queries (world f') = queries (world f)
    ∧ stdout (world f')
      = (stdout (world f)
         ++ if bool_decide (errno = Some EHOSTUNREACH) && negb silent
            then ["No route to host"] else [])%list
    ∧ self f' = observed (callbacks n) (set_scanned true (self f))
    ∧ (connection_made ∉ callbacks n → reachable (self f') = reachable (self f))
    ∧ (∀ gateway' env,
         negotiation env = n → resolve gateway' env = Ok gateway →
         tunnel gateway env = Ok gw →
         ∃ f'', scan gateway' silent env f = (Ok false, f'')
                ∧ self f'' = self f'
                ∧ endpoints (db (world f'')) = endpoints (db (world f))).
Proof.
  intros He.
  pose proof (asyncScan_OSError gateway gw silent n f _ He eq_refl) as Hp.
  simpl in Hp.
  set (f' := if bool_decide (errno = Some EHOSTUNREACH)
             then noticed silent "No route to host" (probed n f)
             else probed n f) in *.
  assert (Hself : self f' = self (probed n f)).
  { unfold f'. destruct (bool_decide _); [apply noticed_self|done]. }
  assert (Hdb : db (world f') = db (world f)).
  { unfold f'. destruct (bool_decide _); [|done]. by destruct silent. }
  exists f'. split; [done|]. split; [done|]. split.
  { unfold f'. destruct (bool_decide _); [|done]. by destruct silent. }
  split.
  { unfold f'. destruct (bool_decide _); destruct silent; simpl;
      by rewrite ?app_nil_r. }
  split; [by rewrite Hself|]. split.
  - intros Hn. rewrite Hself. simpl. by rewrite observed_reachable_kept.
  - intros gateway' env <- Hr Ht.
    destruct (scan_failed_probe _ _ _ _ _ _ _ Hr Ht Hp) as (f3 & Hs & Hs3 & Hep & _).
    exists f3. split; [done|]. split; [done|]. by rewrite Hep, Hdb.
Qed.

(** ** Lookups read the store and write the log *)

Lemma reads_ret {A} (a : A) : reads_only (ret a).
Proof. intros w. repeat split; try done. exists []. simpl. by rewrite app_nil_r. Qed.

Lemma reads_raise {A} exc : reads_only (@raise World A exc).
Proof. intros w. repeat split; try done. exists []. simpl. by rewrite app_nil_r. Qed.

Lemma reads_execute sql : reads_only (execute sql).
Proof. intros w. repeat split; try done. by exists [sql]. Qed.

Lemma reads_bind {A B} (m : M World A) (k : A → M World B) :
  reads_only m → (∀ a, reads_only (k a)) → reads_only (bind m k).
Proof.
  intros Hm Hk w. unfold bind.
  destruct (Hm w) as (Hdb & Hout & [qs Hqs] & Hres).
  destruct (m w) as [[a|exc] w1] eqn:Hmw; simpl in *.
  - destruct (Hk a w1) as (Hdb1 & Hout1 & [qs1 Hqs1] & Hres1).
    split; [congruence|]. split; [congruence|]. split.
    { exists (qs ++ qs1)%list. by rewrite Hqs1, Hqs, app_assoc. }
    intros w2 H2. specialize (Hres w2 H2).
    destruct (Hm w2) as (Hdb2 & _ & _).
    destruct (m w2) as [[a2|exc2] w3]; simpl in *; [|done].
    injection Hres as ->. apply Hres1. congruence.
  - split; [done|]. split; [done|]. split; [by exists qs|].
    intros w2 H2. specialize (Hres w2 H2).
    destruct (m w2) as [[a2|exc2] w3]; simpl in *; congruence.
Qed.

Lemma reads_get {A} (k : World → M World A) :
  (∀ w, reads_only (k w)) → (∀ w1 w2, db w1 = db w2 → k w1 = k w2) →
  reads_only (bind get k).
Proof.
  intros Hk Hext w. unfold bind, get.
  destruct (Hk w w) as (Hdb & Hout & Hqs & Hres).
  split; [done|]. split; [done|]. split; [done|].
  intros w2 H2. rewrite (Hext w2 w H2). by apply Hres.
Qed.

Lemma reads_Host_find_one host_id : reads_only (Host.find_one host_id).
Proof.
  destruct host_id as [h|]; simpl; [|apply reads_ret].
  apply reads_bind; [apply reads_execute|]. intros _.
  apply reads_get.
  - intros w. apply reads_ret.
  - intros w1 w2 H. by rewrite H.
Qed.

Lemma int_str n : int (str n) = n.
Proof.
  unfold int, str, NilZero.string_of_uint.
  assert (Hn : N.to_uint n ≠ Decimal.Nil).
  { destruct n; [done|]. apply DecimalPos.Unsigned.to_uint_nonnil. }
  destruct (N.to_uint n) eqn:Hd; [done|..];
    rewrite <- Hd, NilEmpty.usu; apply DecimalN.Unsigned.of_to.
Qed.

(** ** [LIKE] on a value without wildcards *)






Lemma startswith_spec p s : startswith p s = true ↔ ∃ post, s = p +:+ post.
Proof.
  revert s. induction p as [|c p IH]; intros s; simpl.
  - split; [intros _; by exists s|done].
  - destruct s as [|d s].
    + split; [done|]. by intros [post [=]].
    + rewrite andb_true_iff, Ascii.eqb_eq, IH. split.
      * intros [-> [post ->]]. by exists post.
      * intros [post [= -> ->]]. split; [done|]. by exists post.
Qed.

(** [occurs] is the substring relation. *)
Lemma occurs_spec sub s :
  occurs sub s = true ↔ ∃ pre post, s = pre +:+ sub +:+ post.
Proof.
  induction s as [|c s IH]; simpl.
  - rewrite orb_false_r, startswith_spec. split.
    + intros [post ->]. by exists "", post.
    + intros (pre & post & H). destruct pre; [by exists post|done].
  - rewrite orb_true_iff, startswith_spec, IH. split.
    + intros [[post ->]|(pre & post & ->)].
      * by exists "", post.
      * by exists (String c pre), post.
    + intros (pre & post & H). destruct pre as [|d pre]; simpl in H.
      * left. by exists post.
      * right. injection H as -> ->. by exists pre, post.
Qed.



Section Lookup.

Variable ip_address : string → bool.

Lemma reads_lookup depth :
  (∀ ip p, reads_only (__init__ ip_address depth ip p))
  ∧ (∀ i s, reads_only (find_one ip_address depth i s)).
Proof.
  induction depth as [|d [IHi IHf]].
  - split; intros; apply reads_raise.
  - split.
    + intros ip p. simpl.
      destruct (negb (ip_address ip)); [apply reads_raise|].
      destruct (negb (isdigit p)); [apply reads_raise|].
      apply reads_bind; [apply reads_execute|]. intros _.
      apply reads_get.
      * intros w. destruct (List.find _ _) as [saved|]; [|apply reads_ret].
        apply reads_bind; [apply reads_Host_find_one|]. intros h.
        apply reads_bind; [|intros; apply reads_ret].
        destruct (r_found saved); [apply IHf|apply reads_ret].
      * intros w1 w2 H. by rewrite H.
    + intros i s. simpl.
      destruct i as [i|].
      * destruct (Z.eqb i 0); [apply reads_ret|].
        apply reads_bind; [apply reads_execute|]. intros _.
        apply reads_get.
        -- intros w. destruct (List.find _ _) as [r|]; [|apply reads_ret].
           apply reads_bind; [apply IHi|]. intros; apply reads_ret.
        -- intros w1 w2 H. by rewrite H.
      * destruct s as [s|]; [|apply reads_ret].
        destruct (partition ":" s) as [[ip sep] port].
        destruct (String.eqb port ""); [apply reads_raise|].
        apply reads_bind; [apply reads_execute|]. intros _.
        apply reads_get.
        -- intros w. destruct (List.find _ _) as [r|]; [|apply reads_ret].
           apply reads_bind; [apply IHi|]. intros; apply reads_ret.
        -- intros w1 w2 H. by rewrite H.
Qed.

Lemma reads_init depth ip p : reads_only (__init__ ip_address depth ip p).
Proof. apply reads_lookup. Qed.






End Lookup.

(** ** What a probe leaves in the object *)

Lemma save_ok_id f f' : save f = (Ok tt, f') → is_Some (id (self f')).
Proof.
  destruct f as [e w]. run_save.
  destruct (id e) as [i|] eqn:Hid; simpl.
  - destruct (_ && _); simpl; [done|]. intros [= <-]. simpl. by rewrite Hid.
  - destruct (existsb _ _); simpl; [done|].
    destruct (List.find _ _); simpl; [|done]. intros [= <-]. by simpl.
Qed.

(** Whatever [finish] returns, it leaves [reachable], [auth] and the table
    of edges, and [distance] is set unless it was left as it was. *)
Lemma finish_frame gateway silent f r f' :
  finish gateway silent f = (r, f') →
  reachable (self f') = reachable (self f)
  ∧ auth (self f') = auth (self f)
  ∧ paths (db (world f')) = paths (db (world f))
  ∧ (distance (self f') = distance (self f) ∨ is_Some (distance (self f'))).
Proof.
  unfold finish. unfold bind at 1. rewrite when_print_run.
  unfold bind at 1.
  destruct gateway as [g|]; [destruct (Connection.distance g) as [d|]|]; simpl.
  - unfold bind at 1.
    match goal with |- context [save ?x] =>
      pose proof (save_distance x) as Hd; pose proof (save_reachable x) as Hr;
      pose proof (save_auth x) as Ha; pose proof (save_paths x) as Hp;
      destruct (save x) as [[[]|exc] f2] end;
      simpl in *; intros [= <- <-]; rewrite Hd, Hr, Ha, Hp;
      destruct silent; simpl; eauto 6.
  - intros [= <- <-]. destruct silent; simpl; eauto 6.
  - unfold bind at 1.
    match goal with |- context [save ?x] =>
      pose proof (save_distance x) as Hd; pose proof (save_reachable x) as Hr;
      pose proof (save_auth x) as Ha; pose proof (save_paths x) as Hp;
      destruct (save x) as [[[]|exc] f2] end;
      simpl in *; intros [= <- <-]; rewrite Hd, Hr, Ha, Hp;
      destruct silent; simpl; eauto 6.
Qed.

Lemma finish_ok_id gateway silent f r f' :
  finish gateway silent f = (Ok r, f') → is_Some (id (self f')).
Proof.
  unfold finish. unfold bind at 1. rewrite when_print_run.
  unfold bind at 1.
  destruct gateway as [g|]; [destruct (Connection.distance g) as [d|]|]; simpl;
    try discriminate; unfold bind at 1;
    match goal with |- context [save ?x] =>
      pose proof (save_ok_id x) as Hid; destruct (save x) as [[[]|exc] f2] end;
    simpl; try discriminate; intros [= <- <-]; by apply Hid.
Qed.

(** After a probe the object has the [reachable] and [auth] the callbacks
    gave it, whatever the ending; [distance] changes only when the
    negotiation reached the authentication. *)
Lemma asyncScan_object gateway gw silent n f :
  let f' := (__asyncScan gateway gw silent n f).2 in
  auth (self f') = auth (observed (callbacks n) (self f))
  ∧ reachable (self f') = reachable (observed (callbacks n) (self f))
  ∧ paths (db (world f')) = paths (db (world f))
  ∧ (distance (self f') = distance (self f)
     ∨ (completes n = true ∧ is_Some (distance (self f')))).
Proof.
  assert (Hobs : ∀ cbs e, observed cbs (set_scanned true e)
                          = set_scanned true (observed cbs e)).
  { induction cbs as [|cb cbs IH]; intros e; [done|].
    simpl. rewrite <- IH. by destruct cb. }
  assert (Ha : auth (observed (callbacks n) (set_scanned true (self f)))
               = auth (observed (callbacks n) (self f))) by (by rewrite Hobs).
  assert (Hr : reachable (observed (callbacks n) (set_scanned true (self f)))
               = reachable (observed (callbacks n) (self f))) by (by rewrite Hobs).
  clear Hobs.
  destruct (completes n) eqn:Hc.
  - simpl. rewrite (asyncScan_completes _ _ _ _ _ Hc).
    destruct (finish_frame gateway silent (probed n f) _ _ (pair_eta _))
      as (-> & -> & -> & Hd).
    simpl. rewrite probed_distance in Hd.
    split; [done|]. split; [done|]. split; [done|].
    destruct Hd as [Hd|Hd]; [by left|by right].
  - unfold completes in Hc.
    destruct (ending n) as [conn|exc] eqn:He; [done|].
    destruct (handled exc) eqn:Hh.
    + destruct exc; try discriminate Hh; simpl.
      * rewrite (asyncScan_protocol_error _ _ _ _ _ _ _ He) by (by intros ->).
        simpl. rewrite observed_distance. eauto.
      * rewrite (asyncScan_OSError _ _ _ _ _ _ He eq_refl). simpl.
        destruct (bool_decide (errno = _)); destruct silent; simpl;
          rewrite observed_distance; eauto.
      * rewrite (asyncScan_timeout _ _ _ _ _ He). simpl.
        rewrite observed_distance. eauto.
    + rewrite (asyncScan_unhandled _ _ _ _ _ _ He Hh). simpl.
      rewrite observed_distance. eauto.
Qed.

(** A scan stops before the probe, or its result and its object are those
    of the probe. *)
Lemma scan_cases gateway silent env f :
  (∃ exc, scan gateway silent env f = (Raise exc, f))
  ∨ (∃ g gw, resolve gateway env = Ok g ∧ tunnel g env = Ok gw
             ∧ (scan gateway silent env f).1
               = (__asyncScan g gw silent (negotiation env) f).1
             ∧ self (scan gateway silent env f).2
               = self (__asyncScan g gw silent (negotiation env) f).2).
Proof.
  rewrite scan_run.
  destruct (resolve gateway env) as [g|exc] eqn:Hr; [|left; by exists exc].
  destruct (tunnel g env) as [gw|exc] eqn:Ht; [|left; by exists exc].
  right. exists g, gw. split; [done|]. split; [done|].
  destruct (__asyncScan g gw silent (negotiation env) f) as [[b|exc] f1];
    [|done].
  destruct g as [c|]; [destruct (host (Connection.endpoint c))|];
    rewrite ?bookkeeping_run; simpl; by split.
Qed.

(** ** Route edges *)

(** C1, as the code has it.  After a scan through a gateway whose Endpoint
    has a Host, the edge from that Host to the scanned Endpoint is stored
    after a success (once if it was absent, not again if it was there)
    and one stored copy is removed after a failure; the other edges are
    untouched.  When the gateway's Endpoint has no Host the table is left
    alone and the scan returns what the probe returned.  Without a
    gateway the same bookkeeping is done on the edge that has no origin.
    The ids of the stored edges are supposed distinct. *)
Theorem scan_route_bookkeeping gateway silent env f g ok f' :
  resolve gateway env = Ok g →
  scan gateway silent env f = (Ok ok, f') →
  NoDup (map p_id (paths (db (world f)))) →
  match g with
  | Some c =>
      match host (Connection.endpoint c) with
      | Some h =>
          edge_kept ok (Some (Host.id h)) (id (self f'))
                    (paths (db (world f))) (paths (db (world f')))
      | None =>
          paths (db (world f')) = paths (db (world f))
          ∧ ∃ gw, __asyncScan g gw silent (negotiation env) f = (Ok ok, f')
      end
  | None =>
      edge_kept ok None (id (self f'))
                (paths (db (world f))) (paths (db (world f')))
  end.
Proof.
  intros Hr Hs Hnd. rewrite scan_run, Hr in Hs.
  destruct (tunnel g env) as [gw|exc]; [|done].
  pose proof (asyncScan_object g gw silent (negotiation env) f) as (_ & _ & Hp & _).
  destruct (__asyncScan g gw silent (negotiation env) f) as [[b|exc] f1] eqn:Ha;
    [|done].
  simpl in Hp.
  assert (Hid : b = true → is_Some (id (self f1))).
  { intros ->. apply asyncScan_true in Ha as [_ Ha].
    by apply finish_ok_id in Ha. }
  assert (Hedge : ∀ gwHost,
            bookkeeping b gwHost f1 = (Ok ok, f') →
            edge_kept ok (Path.src_id gwHost) (id (self f'))
                      (paths (db (world f))) (paths (db (world f')))).
  { intros gwHost. rewrite bookkeeping_run. intros [= <- <-]. simpl.
    rewrite <- Hp. apply route_paths_count; [by rewrite Hp|done]. }
  destruct g as [c|].
  - destruct (host (Connection.endpoint c)) as [h|].
    + by apply (Hedge (Some h)).
    + injection Hs as <- <-. split; [done|]. by exists gw.
  - by apply (Hedge None).
Qed.

(** ** Reachability, distance and the mechanisms *)





Lemma scan_probe gateway silent env f r f' :
  scan gateway silent env f = (r, f') →
  (∃ exc, r = Raise exc ∧ f' = f)
  ∨ (∃ g gw f1, __asyncScan g gw silent (negotiation env) f = (r, f1)
                ∧ self f' = self f1).
Proof.
  intros Hs.
  destruct (scan_cases gateway silent env f) as [[exc He]|(g & gw & _ & _ & H1 & H2)].
  - left. exists exc. rewrite He in Hs. by injection Hs as <- <-.
  - right. exists g, gw, (__asyncScan g gw silent (negotiation env) f).2.
    rewrite Hs in H1, H2. simpl in H1, H2. rewrite H1. split; [|done].
    apply pair_eta.
Qed.

Lemma scan_keeps_distance gateway silent env f :
  is_Some (distance (self f)) →
  is_Some (distance (self (scan gateway silent env f).2)).
Proof.
  intros Hsome.
  destruct (scan_cases gateway silent env f) as [[exc ->]|(g & gw & _ & _ & _ & ->)];
    [done|].
  pose proof (asyncScan_object g gw silent (negotiation env) f) as (_ & _ & _ & Hd).
  simpl in Hd. by destruct Hd as [->|[_ ?]].
Qed.

Lemma observed_reachable_true cbs e :
  reachable e = Some true → reachable (observed cbs e) = Some true.
Proof.
  intros He. destruct (decide (connection_made ∈ cbs)) as [Hc|Hc].
  - by apply observed_reachable_made.
  - by rewrite observed_reachable_kept.
Qed.

Lemma scan_distance_reachable gateway silent env f :
  connects env →
  distance_only_if_reachable (self f) →
  distance_only_if_reachable (self (scan gateway silent env f).2).
Proof.
  intros Hc Hf.
  destruct (scan_cases gateway silent env f) as [[exc ->]|(g & gw & _ & _ & _ & ->)];
    [done|].
  pose proof (asyncScan_object g gw silent (negotiation env) f) as (_ & Hr & _ & Hd).
  simpl in Hr, Hd. unfold distance_only_if_reachable. rewrite Hr.
  destruct Hd as [->|[Hcomp _]].
  - intros Hsome. by apply observed_reachable_true, Hf.
  - intros _. by apply observed_reachable_made, Hc.
Qed.

(** C3, as the code has it.  A scan that returns [True] after the
    connection was made leaves [reachable = True] and [distance] set; a
    scan that returns [False] leaves [distance] as it was.  Over scans
    whose negotiations make the connection before they reach the
    authentication, [distance] is set only if [reachable = True]; no
    sequence of scans clears a [distance] that is set. *)
Theorem probe_reachable_distance :
  (∀ gateway silent env f f',
     scan gateway silent env f = (Ok true, f') →
     connection_made ∈ callbacks (negotiation env) →
     reachable (self f') = Some true ∧ is_Some (distance (self f')))
  ∧ (∀ gateway silent env f f',
       scan gateway silent env f = (Ok false, f') →
       distance (self f') = distance (self f))
  ∧ (∀ l f, Forall (fun s => connects s.2) l →
            distance_only_if_reachable (self f) →
            distance_only_if_reachable (self (scans l f)))
  ∧ (∀ l f, is_Some (distance (self f)) →
            is_Some (distance (self (scans l f)))).
Proof.
  split; [|split; [|split]].
  - intros gateway silent env f f' Hs Hc.
    destruct (scan_probe _ _ _ _ _ _ Hs) as [(exc & [=] & _)|(g & gw & f1 & Ha & ->)].
    pose proof (asyncScan_object g gw silent (negotiation env) f) as (_ & Hr & _).
    rewrite Ha in Hr. simpl in Hr.
    destruct (asyncScan_true _ _ _ _ _ _ Ha) as [Hcomp Hfin].
    rewrite Hr.
    split; [by apply observed_reachable_made|].
    destruct (finish_distance _ _ _ _ _ Hfin) as (_ & -> & _). done.
  - intros gateway silent env f f' Hs.
    destruct (scan_probe _ _ _ _ _ _ Hs) as [(exc & [=] & _)|(g & gw & f1 & Ha & ->)].
    destruct (completes (negotiation env)) eqn:Hc.
    + rewrite (asyncScan_completes _ _ _ _ _ Hc) in Ha.
      by destruct (finish_distance _ _ _ _ _ Ha) as [? _].
    + destruct (asyncScan_fails g gw silent (negotiation env) f Hc) as [_ Hdist].
      by rewrite Ha in Hdist.
  - induction l as [|[[gateway silent] env] l IH]; intros f Hall Hf; [done|].
    apply Forall_cons in Hall as [Hc Hall]. simpl in *.
    apply IH; [done|]. by apply scan_distance_reachable.
  - induction l as [|[[gateway silent] env] l IH]; intros f Hsome; [done|].
    simpl. apply IH. by apply scan_keeps_distance.
Qed.


(** ** Objects made by the constructor mirror the store *)

Lemma has_identity_spec ip p r :
  has_identity ip p r = true ↔ r_ip r = ip ∧ r_port r = p.
Proof.
  unfold has_identity. rewrite andb_true_iff, String.eqb_eq, N.eqb_eq. done.
Qed.

Lemma find_mirrors ip p rows :
  identity_key rows →
  match List.find (has_identity ip p) rows with
  | Some saved =>
      existsb (has_id (r_id saved)) rows
      && forallb (fun r => implb (has_identity ip p r) (has_id (r_id saved) r)) rows
      = true
  | None => negb (existsb (has_identity ip p) rows) = true
  end.
Proof.
  intros Hkey. destruct (List.find _ rows) as [saved|] eqn:Hf.
  - apply find_some in Hf as [Hin Hid]. apply andb_true_iff. split.
    + apply existsb_exists. exists saved. split; [done|].
      unfold has_id. apply Z.eqb_refl.
    + apply forallb_forall. intros r Hr.
      destruct (has_identity ip p r) eqn:Hr'; [|done]. simpl.
      apply has_identity_spec in Hid as [Hi1 Hi2].
      apply has_identity_spec in Hr' as [Hr1 Hr2].
      unfold has_id. apply Z.eqb_eq.
      apply Hkey; try (by apply list_elem_of_In); congruence.
  - apply negb_true_iff. destruct (existsb _ rows) eqn:He; [|done].
    apply existsb_exists in He as (r & Hr & Hid).
    by rewrite (find_none _ _ Hf r Hr) in Hid.
Qed.

Lemma init_attached ip_address depth ip p w e w' :
  identity_key (endpoints (db w)) →
  __init__ ip_address depth ip p w = (Ok e, w') →
  attached e w' = true.
Proof.
  intros Hkey Hinit.
  pose proof (reads_init ip_address depth ip p w) as (Hdb & _).
  rewrite Hinit in Hdb. simpl in Hdb.
  pose proof (find_mirrors ip (int p) _ Hkey) as Hm.
  unfold attached. rewrite Hdb. revert Hinit.
  destruct depth as [|d]; [done|]. simpl.
  destruct (negb (ip_address ip)); [done|].
  destruct (negb (isdigit p)); [done|].
  unfold bind at 1, execute at 1, modify at 1.
  unfold bind at 1, get at 1. simpl.
  destruct (List.find _ _) as [saved|]; [|by intros [= <- <-]].
  unfold bind at 1. destruct (Host.find_one _ _) as [[h|exc] w1]; [|done].
  unfold bind at 1.
  destruct (r_found saved) as [i|].
  - destruct (find_one ip_address d (Some i) None w1) as [[fnd|exc] w2]; [|done].
    by intros [= <- <-].
  - by intros [= <- <-].
Qed.

(** ** Worked scans *)

(** The second scenario of the specification: through a gateway at
    distance 1 the scan returns [True] with [distance = 2], both offered
    mechanisms, and a new edge from the gateway's Host. *)
Example tunneled_scenario :
  tunneled.1 = Ok true
  ∧ reachable (self tunneled.2) = Some true
  ∧ distance (self tunneled.2) = Some 2
  ∧ elements (auth (self tunneled.2)) = ["password"; "privkey"]
  ∧ paths (db (world tunneled.2))
    = [{| p_id := 1; p_src := None; p_dst := Some 1 |};
       {| p_id := 2; p_src := Some 7; p_dst := Some 2 |}].
Proof. vm_compute. repeat split. Qed.

(** The first scenario on the code: the host never answers, the scan
    returns [False] with [scanned] set, and [reachable] stays unknown;
    no row is written and nothing is printed. *)
Example silent_host_scenario :
  let r := scan no_gateway false (env_of never_answers) (target "10.0.0.5" empty_world) in
  r.1 = Ok false
  ∧ scanned (self r.2) = true
  ∧ reachable (self r.2) = None
  ∧ elements (auth (self r.2)) = []
  ∧ distance (self r.2) = None
  ∧ endpoints (db (world r.2)) = []
  ∧ stdout (world r.2) = [].
Proof. vm_compute. repeat split. Qed.

(** A second successful scan through the same gateway stores no second
    edge, and a scan through it that finds no route removes the edge. *)
Example repeated_tunneled_scan :
  paths (db (world (scans [(via gateway_connection, true, env_of denied);
                           (via gateway_connection, true, env_of denied)]
                          (target "10.0.0.6" gateway_world))))
  = paths (db (world tunneled.2))
  ∧ paths (db (world (scans [(via gateway_connection, true, env_of denied);
                             (via gateway_connection, true, env_of no_route)]
                            (target "10.0.0.6" gateway_world))))
    = paths (db gateway_world).
Proof. vm_compute. split; reflexivity. Qed.

(** A stalled probe writes no row and leaves the offer in the object; the
    next probe that reaches the service, which offers the public key only,
    writes both mechanisms to the row. *)
Example stalled_row :
  stalled.1 = Ok false
  ∧ endpoints (db (world stalled.2)) = []
  ∧ reachable (self stalled.2) = Some true
  ∧ elements (auth (self stalled.2)) = ["password"]
  ∧ map (fun r => (r_reachable r, r_distance r, r_auth r))
        (endpoints (db (world (scans [(no_gateway, true, env_of stalls);
                                      (no_gateway, true, env_of offers_key)]
                                     (target "10.0.0.5" empty_world)))))
    = [(Some true, Some 0, Some ["password"; "privkey"])].
Proof. vm_compute. repeat split. Qed.

(** A probe cut by a protocol error after the connection was made leaves
    [reachable = True] with no [distance]. *)
Example aborted_after_connect :
  let r := scan no_gateway true
             (env_of {| callbacks := [connection_made];
                        ending := raises (asyncssh_Error 3 "Key exchange failed") |})
             (target "10.0.0.5" empty_world) in
  r.1 = Ok false
  ∧ reachable (self r.2) = Some true
  ∧ distance (self r.2) = None.
Proof. vm_compute. repeat split. Qed.

(** C1, last clause as stated: refuted by the direct scan that reaches
    10.0.0.5:22 in an empty workspace and stores an edge without origin. *)
Lemma direct_scan_stores_edge : ¬ no_bookkeeping_without_gateway.
Proof.
  intros H.
  specialize (H true (env_of denied) (target "10.0.0.5" empty_world)
                reached.1 reached.2 (pair_eta _)).
  vm_compute in H. discriminate H.
Qed.

(** C3 as stated: refuted by a probe that a protocol error cuts after the
    connection was made; [reachable] is [True] and [distance] is not
    set. *)
Lemma reachable_without_distance : ¬ reachable_iff_distance_always.
Proof.
  intros H.
  assert (H0 : reachable_iff_distance (self (target "10.0.0.5" empty_world))).
  { split; [intros [=]|intros [? [=]]]. }
  apply (H [(no_gateway, true, env_of protocol_error)]) in H0.
  remember (scans _ _) as after eqn:Hafter in H0.
  assert (Hr : reachable (self after) = Some true)
    by (rewrite Hafter; vm_compute; reflexivity).
  assert (Hd : distance (self after) = None)
    by (rewrite Hafter; vm_compute; reflexivity).
  clear Hafter. destruct H0 as [H0 _].
  destruct (H0 Hr) as [d Hsome]. congruence.
Qed.


(** C8, the notice as stated: refuted by a probe that finds the network
    unreachable and, not silent, prints nothing. *)
Lemma unreachable_network_unreported : ¬ unreachable_reported.
Proof.
  intros H.
  apply (H None None {| callbacks := []; ending := raises (OSError (Some ENETUNREACH)) |}
           (target "10.0.0.5" empty_world) (Some ENETUNREACH) eq_refl).
  reflexivity.
Qed.


(** ** The claims at the worked scans *)

(** The probe of the tunneled scan: the gateway is at distance 1. *)
Lemma successful_probe_distance_witness :
  ∃ d, Connection.distance gateway_connection = Some d
       ∧ distance (self (__asyncScan (Some gateway_connection) (Some open_handle)
                           true denied (target "10.0.0.6" gateway_world)).2)
         = Some (d + 1).
Proof.
  apply (successful_probe_distance (Some gateway_connection) (Some open_handle)
           true denied (target "10.0.0.6" gateway_world)).
  vm_compute. reflexivity.
Defined.

(** An automatic scan when the registry knows no path. *)
Lemma no_path_propagates_witness :
  scan auto false (env_of denied) (target "10.0.0.6" gateway_world)
  = (Raise NoPathException, target "10.0.0.6" gateway_world)
  ∧ ∀ b f', scan auto false (env_of denied) (target "10.0.0.6" gateway_world)
            ≠ (Ok b, f').
Proof.
  apply (no_path_propagates false (env_of denied) (target "10.0.0.6" gateway_world)).
  reflexivity.
Defined.

(** [find_one] on an address without a port. *)
Lemma find_one_edge_cases_witness :
  find_one example_ip_address 1 None (Some "10.0.0.5") gateway_world
  = (Raise ValueError, gateway_world)
  ∧ (∀ ip_port, find_one example_ip_address 1 (Some 0) ip_port gateway_world
                = (Ok None, gateway_world))
  ∧ find_one example_ip_address 1 None None gateway_world = (Ok None, gateway_world).
Proof.
  apply (find_one_edge_cases example_ip_address 0 "10.0.0.5" gateway_world).
  reflexivity.
Defined.

(** The edge of the tunneled scan, from Host 7. *)
Lemma scan_route_bookkeeping_witness :
  edge_kept true (Some 7) (id (self tunneled.2))
            (paths (db gateway_world)) (paths (db (world tunneled.2))).
Proof.
  apply (scan_route_bookkeeping (via gateway_connection) true (env_of denied)
           (target "10.0.0.6" gateway_world) (Some gateway_connection) true
           tunneled.2).
  - reflexivity.
  - vm_compute. reflexivity.
  - vm_compute. apply NoDup_cons. split; [|apply NoDup_nil_2].
    apply not_elem_of_nil.
Defined.

(** The tunneled scan, the stalled scan, and a silent host after a
    success. *)
Lemma probe_reachable_distance_witness :
  (reachable (self tunneled.2) = Some true ∧ is_Some (distance (self tunneled.2)))
  ∧ distance (self stalled.2) = distance (self (target "10.0.0.5" empty_world))
  ∧ distance_only_if_reachable
      (self (scans [(no_gateway, true, env_of denied);
                    (no_gateway, true, env_of never_answers)]
                   (target "10.0.0.5" empty_world)))
  ∧ is_Some (distance (self (scans [(no_gateway, true, env_of never_answers)]
                                   reached.2))).
Proof.
  destruct probe_reachable_distance as (H1 & H2 & H3 & H4).
  split; [|split; [|split]].
  - apply (H1 (via gateway_connection) true (env_of denied)
              (target "10.0.0.6" gateway_world)); [by vm_compute|by left].
  - apply (H2 no_gateway true (env_of stalls) (target "10.0.0.5" empty_world)
              stalled.2). by vm_compute.
  - apply H3.
    + apply Forall_cons. split; [intros _; by left|].
      apply Forall_cons. split; [intros [=]|apply Forall_nil_2].
    + intros [? [=]].
  - apply H4. exists 0. vm_compute. reflexivity.
Defined.

(** A new Endpoint whose host never answers, scanned aloud: [reachable]
    stays unknown, no row is written and nothing is printed. *)
Lemma deadline_caught_as_OSError_witness :
  ∃ f',
    __asyncScan None None false never_answers (target "10.0.0.5" empty_world)
    = (Ok false, f')
    ∧ world f' = empty_world
    ∧ scanned (self f') = true
    ∧ reachable (self f') = None
    ∧ ∃ f'', scan no_gateway false (env_of never_answers) (target "10.0.0.5" empty_world)
             = (Ok false, f'')
             ∧ self f'' = self f'
             ∧ endpoints (db (world f'')) = []
             ∧ stdout (world f'') = [].
Proof.
  destruct (deadline_caught_as_OSError None None false never_answers
              (target "10.0.0.5" empty_world) eq_refl)
    as (f' & H1 & H2 & H3 & H4 & H5 & H6).
  exists f'.
  split; [exact H1|]. split; [exact H2|]. split; [exact H4|].
  split; [exact H5|].
  exact (H6 no_gateway (env_of never_answers) eq_refl eq_refl eq_refl).
Defined.

(** A new Endpoint to which there is no route. *)
Lemma network_failure_leaves_store_witness :
  ∃ f',
    __asyncScan None None false no_route (target "10.0.0.5" gateway_world)
    = (Ok false, f')
    ∧ db (world f') = db gateway_world
    ∧ queries (world f') = []
    ∧ stdout (world f') = ["No route to host"]
    ∧ reachable (self f') = None
    ∧ ∃ f'', scan no_gateway false (env_of no_route) (target "10.0.0.5" gateway_world)
             = (Ok false, f'')
             ∧ self f'' = self f'
             ∧ endpoints (db (world f'')) = endpoints (db gateway_world).
Proof.
  destruct (network_failure_leaves_store None None false no_route
              (target "10.0.0.5" gateway_world) (Some EHOSTUNREACH) eq_refl)
    as (f' & H1 & H2 & H3 & H4 & H5 & H6 & H7).
  exists f'.
  split; [exact H1|]. split; [exact H2|]. split; [exact H3|].
  split; [exact H4|]. split.
  - rewrite (H6 (not_elem_of_nil _)). reflexivity.
  - exact (H7 no_gateway (env_of no_route) eq_refl eq_refl eq_refl).
Defined.



(** * Further properties *)

(** ** Saving and loading back *)

Lemma next_id_above (rows : list EndpointRow) r :
  r ∈ rows → r_id r < next_id (map r_id rows).
Proof.
  unfold next_id. induction rows as [|x rows IH]; intros Hr.
  - by apply elem_of_nil in Hr.
  - simpl. apply elem_of_cons in Hr as [->|Hr]; [lia|].
    specialize (IH Hr). lia.
Qed.

Lemma next_id_positive (ids : list Z) : 0 < next_id ids.
Proof. unfold next_id. induction ids as [|x ids IH]; simpl; lia. Qed.

(** What [save] does for an object that mirrors the store. *)
Lemma save_attached_store f :
  attached (self f) (world f) = true →
  ∃ f', save f = (Ok tt, f')
        ∧ self f' = set_id (Some (saved_id (self f) (endpoints (db (world f))))) (self f)
        ∧ endpoints (db (world f')) = saved_rows (self f) (endpoints (db (world f)))
        ∧ paths (db (world f')) = paths (db (world f))
        ∧ hosts (db (world f')) = hosts (db (world f))
        ∧ stdout (world f') = stdout (world f).
Proof.
  destruct f as [e [[eps ps hs] qs out]]. unfold attached, saved_id, saved_rows; simpl.
  run_save. destruct (id e) as [i|] eqn:Hid; simpl.
  - intros [Hex Hall]%andb_true_iff.
    rewrite Hex, (no_conflict _ _ _ Hall). simpl.
    eexists. split; [reflexivity|]. simpl. repeat split.
    destruct e; simpl in *; by subst.
  - intros Hno%negb_true_iff. rewrite Hno. simpl.
    rewrite (find_inserted _ _ _ Hno). simpl.
    eexists. split; [reflexivity|]. simpl. by repeat split.
Qed.

Lemma has_id_row_of i e : has_id i (row_of i e) = true.
Proof. unfold has_id. simpl. apply Z.eqb_refl. Qed.

Lemma attached_saved e rows w w' :
  endpoints (db w) = rows →
  attached e w = true →
  endpoints (db w') = saved_rows e rows →
  attached (set_id (Some (saved_id e rows)) e) w' = true.
Proof.
  intros <- Ha Hrows. unfold attached in *. rewrite Hrows. clear Hrows.
  unfold saved_id, saved_rows.
  change (id (set_id ?v e)) with v.
  change (ip (set_id ?v e)) with (ip e).
  change (port (set_id ?v e)) with (port e).
  destruct (id e) as [i|] eqn:Hid.
  - apply andb_true_iff in Ha as [Hex Hall]. apply andb_true_iff. split.
    + clear Hall. induction (endpoints (db w)) as [|x rows IH]; [done|].
      simpl in Hex |- *. destruct (has_id i x) eqn:Hx.
      * by rewrite has_id_row_of.
      * rewrite Hx. simpl. by apply IH.
    + clear Hex. induction (endpoints (db w)) as [|x rows IH]; [done|].
      simpl in Hall |- *. apply andb_true_iff in Hall as [Hx Hall].
      rewrite (IH Hall), andb_true_r.
      destruct (has_id i x) eqn:Hi.
      * by rewrite has_id_row_of, implb_true_r.
      * by rewrite Hi.
  - apply negb_true_iff in Ha. apply andb_true_iff. split.
    + rewrite existsb_app. simpl. rewrite has_id_row_of. by rewrite orb_true_r.
    + rewrite forallb_app. simpl. rewrite has_id_row_of.
      rewrite implb_true_r, !andb_true_r.
      apply forallb_forall. intros r Hr.
      destruct (has_identity (ip e) (port e) r) eqn:Hi; [|done].
      exfalso. assert (existsb (has_identity (ip e) (port e)) (endpoints (db w)) = true);
        [|congruence].
      apply existsb_exists. by exists r.
Qed.

Lemma saved_rows_fixed e rows :
  map (fun r => if has_id (saved_id e rows) r
                then row_of (saved_id e rows) e else r) (saved_rows e rows)
  = saved_rows e rows.
Proof.
  unfold saved_id, saved_rows. destruct (id e) as [i|].
  - rewrite map_map. apply map_ext. intros r.
    destruct (has_id i r) eqn:Hr; [by rewrite has_id_row_of|by rewrite Hr].
  - rewrite map_app. simpl. rewrite has_id_row_of. f_equal.
    rewrite <- (map_id rows) at 2. apply map_ext_in. intros r Hr.
    apply list_elem_of_In, next_id_above in Hr.
    unfold has_id. destruct (Z.eqb_spec (r_id r) (next_id (map r_id rows))); [lia|done].
Qed.

(** X1. Saving twice is saving once: the second [save] rewrites the row with
    what it holds and leaves the object and the tables as they are. *)
Theorem save_twice f :
  attached (self f) (world f) = true →
  ∃ f1 f2, save f = (Ok tt, f1)
           ∧ save f1 = (Ok tt, f2)
           ∧ self f2 = self f1
           ∧ db (world f2) = db (world f1).
Proof.
  intros Ha.
  destruct (save_attached_store f Ha) as (f1 & Hs1 & Hself1 & Hrows1 & Hp1 & Hh1 & _).
  assert (Ha1 : attached (self f1) (world f1) = true).
  { rewrite Hself1. by apply (attached_saved _ _ (world f)). }
  destruct (save_attached_store f1 Ha1) as (f2 & Hs2 & Hself2 & Hrows2 & Hp2 & Hh2 & _).
  exists f1, f2. split; [done|]. split; [done|].
  assert (Hid : saved_id (self f1) (endpoints (db (world f1)))
                = saved_id (self f) (endpoints (db (world f)))).
  { rewrite Hself1. reflexivity. }
  split.
  - rewrite Hself2, Hid, Hself1. reflexivity.
  - assert (Hrows : endpoints (db (world f2)) = endpoints (db (world f1))).
    { rewrite Hrows2, Hrows1. rewrite Hself1 at 1.
      unfold saved_rows at 1.
      change (id (set_id ?v _)) with v. cbv iota.
      rewrite <- (saved_rows_fixed (self f)) at 2.
      apply map_ext. intros r. destruct (has_id _ r); [|done].
      apply row_of_set_id. }
    destruct (db (world f2)), (db (world f1)); simpl in *. congruence.
Qed.

Lemma isdigit_str n : isdigit (str n) = true.
Proof.
  unfold isdigit, str, NilZero.string_of_uint.
  assert (Hn : N.to_uint n ≠ Decimal.Nil).
  { destruct n; [done|]. apply DecimalPos.Unsigned.to_uint_nonnil. }
  assert (Hu : NilEmpty.uint_of_string (NilEmpty.string_of_uint (N.to_uint n))
               = Some (N.to_uint n)) by apply NilEmpty.usu.
  destruct (N.to_uint n) eqn:Hd; [done|..]; rewrite <- Hd in *;
    (destruct (NilEmpty.string_of_uint (N.to_uint n)) eqn:Hs;
      [simpl in Hu; congruence|by rewrite Hu]).
Qed.

Lemma str_inj n m : str n = str m → n = m.
Proof. intros H. by rewrite <- (int_str n), <- (int_str m), H. Qed.

Section Loading.

Variable ip_address : string → bool.

Lemma Host_find_one_returns host_id w :
  ∃ h w', Host.find_one host_id w = (Ok h, w').
Proof. destruct host_id; by eexists _, _. Qed.

(** The constructor on the identity of a row it finds first. *)
Lemma init_found depth ip p w saved r w' :
  ip_address ip = true →
  List.find (has_identity ip p) (endpoints (db w)) = Some saved →
  __init__ ip_address (S depth) ip (str p) w = (r, w') →
  (r_found saved = None → ∃ e, r = Ok e)
  ∧ ∀ e, r = Ok e →
      Endpoint.ip e = ip ∧ port e = p ∧ id e = Some (r_id saved)
      ∧ scope e = r_scope saved ∧ scanned e = r_scanned saved
      ∧ reachable e = r_reachable saved ∧ distance e = r_distance saved
      ∧ auth e = match r_auth saved with Some l => list_to_set l | None => ∅ end.
Proof.
  intros Hip Hf. simpl. rewrite Hip, isdigit_str, int_str. simpl.
  unfold bind at 1, execute at 1, modify at 1.
  unfold bind at 1, get at 1. simpl. rewrite Hf.
  unfold bind at 1.
  destruct (Host_find_one_returns (r_host saved)
              {| db := db w;
                 queries := queries w ++ ["SELECT id,host,scanned,reachable,distance,auth,scope,found FROM endpoints WHERE ip=? AND port=?"];
                 stdout := stdout w |}) as (h & w1 & ->).
  unfold bind at 1. destruct (r_found saved) as [i|].
  - destruct (find_one ip_address depth (Some i) None w1) as [[fnd|exc] w2].
    + intros [= <- <-]. split; [done|]. intros e [= <-]. by repeat split.
    + intros [= <- <-]. split; [done|]. by intros e.
  - intros [= <- <-]. split; [by eexists|]. intros e [= <-]. by repeat split.
Qed.

Lemma find_id_saved e rows :
  (∀ i, id e = Some i → existsb (has_id i) rows = true) →
  List.find (has_id (saved_id e rows)) (saved_rows e rows)
  = Some (row_of (saved_id e rows) e).
Proof.
  unfold saved_id, saved_rows. destruct (id e) as [i|]; intros Hex.
  - specialize (Hex i eq_refl).
    induction rows as [|x rows IH]; [done|]. simpl in *.
    destruct (has_id i x) eqn:Hx; [by rewrite has_id_row_of|].
    rewrite Hx. by apply IH.
  - assert (Hnone : List.find (has_id (next_id (map r_id rows))) rows = None).
    { destruct (List.find _ rows) as [r|] eqn:Hf; [|done].
      apply find_some in Hf as [Hin Hid]. apply list_elem_of_In, next_id_above in Hin.
      unfold has_id in Hid. apply Z.eqb_eq in Hid. lia. }
    clear Hex. revert Hnone. generalize (next_id (map r_id rows)). intros n.
    induction rows as [|x rows IH]; simpl.
    + intros _. by rewrite has_id_row_of.
    + destruct (has_id n x); [done|]. apply IH.
Qed.

Lemma attached_has_row e w i :
  attached e w = true → id e = Some i → existsb (has_id i) (endpoints (db w)) = true.
Proof.
  unfold attached. intros Ha Hid. rewrite Hid in Ha.
  by apply andb_true_iff in Ha as [? _].
Qed.

Lemma find_identity_saved e w :
  attached e w = true →
  List.find (has_identity (ip e) (port e)) (saved_rows e (endpoints (db w)))
  = Some (row_of (saved_id e (endpoints (db w))) e).
Proof.
  unfold attached, saved_id, saved_rows. destruct (id e) as [i|].
  - intros [Hex Hall]%andb_true_iff. by apply find_updated.
  - intros Hno%negb_true_iff. by apply find_inserted.
Qed.

Lemma auth_loaded e i :
  match r_auth (row_of i e) with Some l => list_to_set l | None => ∅ end = auth e.
Proof.
  unfold row_of; simpl. case_bool_decide as He; [done|].
  apply list_to_set_elements_L.
Qed.

(** X2. An object that mirrors the store can be saved, and constructing
    the Endpoint of the same address and port afterwards gives the id the
    save assigned and the saved scope, scanned, reachable, distance and
    auth; the construction succeeds when the object has no stored
    [found]. *)
Theorem save_then_construct depth f :
  attached (self f) (world f) = true →
  ip_address (ip (self f)) = true →
  ∃ f1 i,
    save f = (Ok tt, f1) ∧ id (self f1) = Some i
    ∧ ∀ r w',
        __init__ ip_address (S depth) (ip (self f)) (str (port (self f))) (world f1)
        = (r, w') →
        (found_id (self f) = None → ∃ e, r = Ok e)
        ∧ ∀ e, r = Ok e → id e = Some i ∧ same_record (self f) e.
Proof.
  intros Ha Hip.
  destruct (save_attached_store f Ha) as (f1 & Hs & Hself & Hrows & _).
  exists f1, (saved_id (self f) (endpoints (db (world f)))).
  split; [done|]. split; [by rewrite Hself|].
  intros r w' Hinit.
  pose proof (find_identity_saved _ _ Ha) as Hf. rewrite <- Hrows in Hf.
  destruct (init_found _ _ _ _ _ _ _ Hip Hf Hinit) as [H1 H2]. split; [exact H1|].
  intros e He. destruct (H2 e He) as (? & ? & ? & ? & ? & ? & ? & Hauth).
  rewrite auth_loaded in Hauth. by repeat split.
Qed.

Lemma find_one_by_id d i w :
  i ≠ 0 →
  find_one ip_address (S d) (Some i) None w
  = match List.find (has_id i) (endpoints (db w)) with
    | Some r =>
        let res := __init__ ip_address d (r_ip r) (str (r_port r))
                     (execute "SELECT ip,port FROM endpoints WHERE id=?" w).2 in
        (match res.1 with Ok e => Ok (Some e) | Raise exc => Raise exc end, res.2)
    | None => (Ok None, (execute "SELECT ip,port FROM endpoints WHERE id=?" w).2)
    end.
Proof.
  intros Hi. simpl. destruct (Z.eqb_spec i 0) as [|_]; [done|].
  unfold bind at 1, execute at 1, modify at 1.
  unfold bind at 1, get at 1. simpl.
  destruct (List.find _ _) as [r|]; [|done].
  unfold bind at 1. by destruct (__init__ _ _ _ _ _) as [[e|exc] w2].
Qed.

(** X3. After such a save, [find_one] by the id of the object, when that
    id is not 0, never answers [None]: what it returns is the saved
    record, and it returns when the object has no stored [found]. *)
Theorem save_then_find_by_id depth f :
  attached (self f) (world f) = true →
  ip_address (ip (self f)) = true →
  id (self f) ≠ Some 0 →
  ∃ f1 i,
    save f = (Ok tt, f1) ∧ id (self f1) = Some i ∧ i ≠ 0
    ∧ ∀ r w',
        find_one ip_address (S (S depth)) (Some i) None (world f1) = (r, w') →
        r ≠ Ok None
        ∧ (found_id (self f) = None → ∃ e, r = Ok (Some e))
        ∧ ∀ e, r = Ok (Some e) → id e = Some i ∧ same_record (self f) e.
Proof.
  intros Ha Hip H0.
  destruct (save_attached_store f Ha) as (f1 & Hs & Hself & Hrows & _).
  set (i := saved_id (self f) (endpoints (db (world f)))) in *.
  assert (Hi : i ≠ 0).
  { subst i. unfold saved_id. destruct (id (self f)) as [j|]; [congruence|].
    pose proof (next_id_positive (map r_id (endpoints (db (world f))))). lia. }
  exists f1, i. split; [done|]. split; [by rewrite Hself|]. split; [done|].
  intros r w'.
  pose proof (find_identity_saved _ _ Ha) as Hf. rewrite <- Hrows in Hf.
  pose proof (find_id_saved (self f) (endpoints (db (world f)))
                (fun j => attached_has_row _ _ j Ha)) as Hfi.
  rewrite <- Hrows in Hfi. fold i in Hf, Hfi.
  rewrite (find_one_by_id _ _ _ Hi), Hfi.
  change (r_ip (row_of i (self f))) with (ip (self f)).
  change (r_port (row_of i (self f))) with (port (self f)).
  destruct (__init__ _ _ _ _ _) as [r1 w2] eqn:Hinit.
  destruct (init_found _ _ _ (execute "SELECT ip,port FROM endpoints WHERE id=?" (world f1)).2
              _ _ _ Hip Hf Hinit) as [H1 H2].
  cbv zeta. simpl fst. simpl snd.
  destruct r1 as [e1|exc]; intros [= <- <-].
  - split; [done|]. split; [by eexists|]. intros e [= <-].
    destruct (H2 e1 eq_refl) as (? & ? & ? & ? & ? & ? & ? & Hauth).
    rewrite auth_loaded in Hauth. by repeat split.
  - split; [done|]. split; [|done]. intros Hn. by destruct (H1 Hn).
Qed.

End Loading.

(** ** The text of an Endpoint and the lookup by text *)

Lemma contains_app c s x :
  contains c (s +:+ x) = contains c s || contains c x.
Proof.
  induction s as [|a s IH]; simpl; [done|]. rewrite IH. by rewrite orb_assoc.
Qed.

Lemma contains_digits d : contains ":" (NilEmpty.string_of_uint d) = false.
Proof. induction d; simpl; done. Qed.

Lemma contains_str n : contains ":" (str n) = false.
Proof.
  unfold str, NilZero.string_of_uint.
  destruct (N.to_uint n) eqn:Hd; [done|..]; rewrite <- Hd; apply contains_digits.
Qed.

Lemma partition_absent c s x :
  contains c s = false →
  partition c (s +:+ String c x) = (s, String c EmptyString, x).
Proof.
  induction s as [|a s IH]; simpl.
  - intros _. by rewrite Ascii.eqb_refl.
  - intros [-> H]%orb_false_iff. by rewrite (IH H).
Qed.

Lemma partition_present c s x :
  contains c s = true →
  ∃ a b, partition c (s +:+ x) = (a, String c EmptyString, b +:+ x).
Proof.
  induction s as [|a s IH]; simpl; [done|].
  destruct (Ascii.eqb a c) eqn:Ha; simpl.
  - intros _. by exists EmptyString, s.
  - intros H. destruct (IH H) as (a' & b & ->). by exists (String a a'), b.
Qed.

Lemma contains_differ c s1 s2 :
  contains c s1 = false → contains c s2 = true → String.eqb s1 s2 = false.
Proof.
  intros H1 H2. destruct (String.eqb_spec s1 s2) as [->|]; [congruence|done].
Qed.

Lemma find_none_ext {A} (P : A → bool) l :
  (∀ x, P x = false) → List.find P l = None.
Proof. intros H. induction l as [|x l IH]; simpl; [done|]. by rewrite H. Qed.

Lemma find_ext {A} (P Q : A → bool) l :
  (∀ x, P x = Q x) → List.find P l = List.find Q l.
Proof. intros H. induction l as [|x l IH]; simpl; [done|]. by rewrite H, IH. Qed.

Lemma eqb_str n m : String.eqb (str n) (str m) = N.eqb n m.
Proof.
  destruct (String.eqb_spec (str n) (str m)) as [H|H].
  - apply str_inj in H as ->. by rewrite N.eqb_refl.
  - destruct (N.eqb_spec n m) as [->|]; [by destruct H|done].
Qed.

Section Text.

Variable ip_address : string → bool.

Lemma find_one_by_text d s ip sep port w :
  partition ":" s = (ip, sep, port) → port ≠ EmptyString →
  find_one ip_address (S d) None (Some s) w
  = match List.find (fun r => String.eqb (r_ip r) ip && String.eqb (str (r_port r)) port)
                    (endpoints (db w)) with
    | Some r =>
        let res := __init__ ip_address d (r_ip r) (str (r_port r))
                     (execute "SELECT ip,port FROM endpoints WHERE ip=? and port=?" w).2 in
        (match res.1 with Ok e => Ok (Some e) | Raise exc => Raise exc end, res.2)
    | None => (Ok None, (execute "SELECT ip,port FROM endpoints WHERE ip=? and port=?" w).2)
    end.
Proof.
  intros Hp Hport. simpl. rewrite Hp.
  destruct (String.eqb_spec port "") as [|_]; [done|].
  unfold bind at 1, execute at 1, modify at 1.
  unfold bind at 1, get at 1. simpl.
  destruct (List.find _ _) as [r|]; [|done].
  unfold bind at 1. by destruct (__init__ _ _ _ _ _) as [[e|exc] w2].
Qed.

(** X4. For an Endpoint whose address holds no colon, the text [__str__]
    gives is a key for [find_one]: after a save, [find_one] on that text
    never answers [None] and what it returns is the saved record. *)
Theorem str_then_find_one depth f :
  contains ":" (ip (self f)) = false →
  attached (self f) (world f) = true →
  ip_address (ip (self f)) = true →
  ∃ f1 i,
    save f = (Ok tt, f1) ∧ id (self f1) = Some i
    ∧ ∀ r w',
        find_one ip_address (S (S depth)) None (Some (__str__ (self f))) (world f1)
        = (r, w') →
        r ≠ Ok None
        ∧ (found_id (self f) = None → ∃ e, r = Ok (Some e))
        ∧ ∀ e, r = Ok (Some e) → id e = Some i ∧ same_record (self f) e.
Proof.
  intros Hc Ha Hip.
  destruct (save_attached_store f Ha) as (f1 & Hs & Hself & Hrows & _).
  set (i := saved_id (self f) (endpoints (db (world f)))) in *.
  exists f1, i. split; [done|]. split; [by rewrite Hself|].
  intros r w'.
  pose proof (find_identity_saved _ _ Ha) as Hf. rewrite <- Hrows in Hf. fold i in Hf.
  assert (Hne : str (port (self f)) ≠ EmptyString).
  { intros He. pose proof (isdigit_str (port (self f))) as Hd. by rewrite He in Hd. }
  rewrite (find_one_by_text _ _ _ _ _ _ (partition_absent _ _ _ Hc) Hne).
  rewrite (find_ext _ (has_identity (ip (self f)) (port (self f)))), Hf.
  2:{ intros x. unfold has_identity. by rewrite eqb_str. }
  change (r_ip (row_of i (self f))) with (ip (self f)).
  change (r_port (row_of i (self f))) with (port (self f)).
  destruct (__init__ _ _ _ _ _) as [r1 w2] eqn:Hinit.
  destruct (init_found ip_address _ _ _
              (execute "SELECT ip,port FROM endpoints WHERE ip=? and port=?" (world f1)).2
              _ _ _ Hip Hf Hinit) as [H1 H2].
  cbv zeta. simpl fst. simpl snd.
  destruct r1 as [e1|exc]; intros [= <- <-].
  - split; [done|]. split; [by eexists|]. intros e [= <-].
    destruct (H2 e1 eq_refl) as (? & ? & ? & ? & ? & ? & ? & Hauth).
    rewrite auth_loaded in Hauth. by repeat split.
  - split; [done|]. split; [|done]. intros Hn. by destruct (H1 Hn).
Qed.

(** X5. For an Endpoint whose address holds a colon, as every IPv6 address
    does, [find_one] on the text [__str__] gives answers [None] in every
    store, whether the Endpoint is saved or not: the text is split at its
    first colon. *)
Theorem str_with_colon_not_found depth e w :
  contains ":" (ip e) = true →
  find_one ip_address (S depth) None (Some (__str__ e)) w
  = (Ok None, (execute "SELECT ip,port FROM endpoints WHERE ip=? and port=?" w).2).
Proof.
  intros Hc. unfold __str__.
  destruct (partition_present ":" (ip e) (":" +:+ str (port e)) Hc) as (a & b & Hp).
  assert (Hrest : contains ":" (b +:+ ":" +:+ str (port e)) = true).
  { rewrite contains_app. simpl. by rewrite orb_true_r. }
  rewrite (find_one_by_text _ _ _ _ _ _ Hp).
  2:{ intros He. by rewrite He in Hrest. }
  rewrite find_none_ext; [done|].
  intros r. rewrite (contains_differ ":" _ _ (contains_str _) Hrest).
  apply andb_false_r.
Qed.

End Text.

(** ** Scans of an object that mirrors the store *)

Lemma attached_ext e e' w w' :
  ip e' = ip e → port e' = port e → id e' = id e →
  endpoints (db w') = endpoints (db w) →
  attached e' w' = attached e w.
Proof. unfold attached. by intros -> -> -> ->. Qed.

Lemma attached_transfer e e' w w' :
  attached e w = true →
  ip e' = ip e → port e' = port e → id e' = id e →
  endpoints (db w') = endpoints (db w) →
  attached e' w' = true.
Proof. intros Ha H1 H2 H3 H4. by rewrite (attached_ext e e' w w'). Qed.

Lemma probed_attached n f :
  attached (self (probed n f)) (world (probed n f)) = attached (self f) (world f).
Proof.
  destruct (observed_identity (callbacks n) (set_scanned true (self f)))
    as (Hip & Hport & Hid).
  by apply attached_ext.
Qed.

Lemma probed_scanned n f : scanned (self (probed n f)) = true.
Proof. unfold probed; simpl. by rewrite observed_scanned. Qed.

Lemma noticed_attached silent line f :
  attached (self (noticed silent line f)) (world (noticed silent line f))
  = attached (self f) (world f).
Proof. by destruct silent. Qed.

Lemma save_keeps_attached f f' :
  attached (self f) (world f) = true → save f = (Ok tt, f') →
  attached (self f') (world f') = true ∧ scanned (self f') = scanned (self f).
Proof.
  intros Ha Hs.
  destruct (save_attached_store f Ha) as (f1 & Hs1 & Hself & Hrows & _).
  rewrite Hs in Hs1. injection Hs1 as <-. split.
  - rewrite Hself. by apply (attached_saved _ _ (world f)).
  - by rewrite Hself.
Qed.

Lemma finish_returns gateway silent f :
  attached (self f) (world f) = true →
  (∀ c, gateway = Some c → is_Some (Connection.distance c)) →
  ∃ f', finish gateway silent f = (Ok true, f')
        ∧ attached (self f') (world f') = true
        ∧ scanned (self f') = scanned (self f).
Proof.
  intros Ha Hg. unfold finish. unfold bind at 1. rewrite when_print_run.
  unfold bind at 1.
  assert (Hx : ∀ d,
    ∃ f', (save;;; ret true)
            {| self := set_distance d (self (noticed silent "Done" f));
               world := world (noticed silent "Done" f) |} = (Ok true, f')
          ∧ attached (self f') (world f') = true
          ∧ scanned (self f') = scanned (self f)).
  { intros d. unfold bind.
    match goal with |- context [save ?x] =>
      assert (Hax : attached (self x) (world x) = true)
        by (apply (attached_transfer (self f) _ (world f) _ Ha); by destruct silent);
      destruct (save_attached_store x Hax) as (f1 & Hs & _);
      destruct (save_keeps_attached x f1 Hax Hs) as [Ha1 Hsc1]
    end.
    rewrite Hs. exists f1. split; [done|]. split; [done|].
    rewrite Hsc1. simpl. by rewrite noticed_self. }
  destruct gateway as [c|].
  - destruct (Hg c eq_refl) as [d ->]. apply Hx.
  - apply Hx.
Qed.

Lemma asyncScan_returns gateway gw silent n f :
  attached (self f) (world f) = true →
  (∀ c, gateway = Some c → is_Some (Connection.distance c)) →
  provided_for n = true →
  ∃ f', __asyncScan gateway gw silent n f = (Ok (completes n), f')
        ∧ attached (self f') (world f') = true
        ∧ scanned (self f') = true.
Proof.
  intros Ha Hg Hp.
  destruct (completes n) eqn:Hc.
  - rewrite (asyncScan_completes _ _ _ _ _ Hc).
    destruct (finish_returns gateway silent (probed n f)) as (f' & Hf & Ha' & Hs');
      [by rewrite probed_attached|done|].
    exists f'. split; [done|]. split; [done|]. by rewrite Hs', probed_scanned.
  - unfold completes in Hc. unfold provided_for in Hp.
    destruct (ending n) as [conn|exc] eqn:He; [done|].
    destruct exc; try discriminate Hp.
    + rewrite (asyncScan_protocol_error _ _ _ _ _ _ _ He) by (by intros ->).
      eexists. split; [reflexivity|]. split; [|apply probed_scanned].
      change (attached (self (probed n f)) (world (probed n f)) = true).
      by rewrite probed_attached.
    + rewrite (asyncScan_OSError _ _ _ _ _ _ He eq_refl).
      eexists. split; [reflexivity|].
      destruct (bool_decide _); rewrite ?noticed_attached, ?noticed_self;
        (split; [by rewrite probed_attached|apply probed_scanned]).
    + rewrite (asyncScan_timeout _ _ _ _ _ He).
      eexists. split; [reflexivity|].
      split; [by rewrite probed_attached|apply probed_scanned].
Qed.

(** X6. A scan of an object that mirrors the store, with a gateway that
    has a distance and a negotiation that ends in one of the ways the
    probe provides for, raises nothing: it returns [True] exactly when the
    negotiation reached the authentication, it leaves [scanned = True],
    and the object still mirrors the store. *)
Theorem scan_returns gateway silent env f g gw :
  attached (self f) (world f) = true →
  resolve gateway env = Ok g →
  tunnel g env = Ok gw →
  (∀ c, g = Some c → is_Some (Connection.distance c)) →
  provided_for (negotiation env) = true →
  ∃ f', scan gateway silent env f = (Ok (completes (negotiation env)), f')
        ∧ attached (self f') (world f') = true
        ∧ scanned (self f') = true.
Proof.
  intros Ha Hr Ht Hg Hp. rewrite scan_run, Hr, Ht.
  destruct (asyncScan_returns g gw silent (negotiation env) f Ha Hg Hp)
    as (f1 & -> & Ha1 & Hs1).
  destruct g as [c|]; [destruct (host (Connection.endpoint c))|];
    rewrite ?bookkeeping_run; eexists; (split; [reflexivity|]);
    (split; [|done]); by apply (attached_transfer _ _ _ _ Ha1).
Qed.

(** ** Outcomes of the negotiation *)

(** X7. A protocol error other than the denial of the login makes the
    scan return [False] and print its notice whether [silent] is set or
    not; the rows of the Endpoints are left as they were and the object
    only has what the callbacks gave it. *)
Theorem protocol_error_reported gateway silent env f g gw code reason :
  resolve gateway env = Ok g →
  tunnel g env = Ok gw →
  ending (negotiation env) = raises (asyncssh_Error code reason) →
  code ≠ 14 →
  ∃ f', scan gateway silent env f = (Ok false, f')
        ∧ stdout (world f')
          = (stdout (world f) ++ ["asyncssh Error: " +:+ reason])%list
        ∧ endpoints (db (world f')) = endpoints (db (world f))
        ∧ self f' = observed (callbacks (negotiation env)) (set_scanned true (self f)).
Proof.
  intros Hr Ht He Hc.
  pose proof (asyncScan_protocol_error g gw silent _ f _ _ He Hc) as Hp.
  destruct (scan_failed_probe _ _ _ _ _ _ _ Hr Ht Hp) as (f2 & Hs & Hself & Hep & Hout).
  exists f2. split; [done|]. by rewrite Hout, Hep, Hself.
Qed.

(** X8. Two negotiations that reach the authentication with the same
    callbacks give the same scan: a login denied with code 14, for any
    reason given, counts as a connection returned, and so does a
    connection whose [close()] raises. *)
Theorem reached_alike gateway silent env1 env2 f :
  find_one_gateway_to env1 = find_one_gateway_to env2 →
  initConnect env1 = initConnect env2 →
  callbacks (negotiation env1) = callbacks (negotiation env2) →
  completes (negotiation env1) = true →
  completes (negotiation env2) = true →
  scan gateway silent env1 f = scan gateway silent env2 f.
Proof.
  intros Hf Hi Hc H1 H2. rewrite !scan_run.
  assert (Hr : resolve gateway env1 = resolve gateway env2)
    by (destruct gateway; simpl; congruence).
  rewrite Hr. destruct (resolve gateway env2) as [g|exc]; [|done].
  assert (Ht : tunnel g env1 = tunnel g env2)
    by (unfold tunnel; by rewrite Hi).
  rewrite Ht. destruct (tunnel g env2) as [gw|exc]; [|done].
  rewrite (asyncScan_completes _ _ _ _ _ H1), (asyncScan_completes _ _ _ _ _ H2).
  unfold probed. by rewrite Hc.
Qed.

(** ** Silent scans *)

Lemma save_but_stdout f1 f2 :
  same_but_stdout f1 f2 →
  (save f1).1 = (save f2).1 ∧ same_but_stdout (save f1).2 (save f2).2.
Proof.
  destruct f1 as [e1 [d1 q1 o1]], f2 as [e2 [d2 q2 o2]].
  intros (He & Hd & Hq). simpl in *. subst e2 d2 q2.
  unfold same_but_stdout. run_save.
  destruct (id e1); simpl.
  - by destruct (_ && _).
  - destruct (existsb _ _); simpl; [done|]. by destruct (List.find _ _).
Qed.

Lemma noticed_but_stdout silent1 silent2 line f1 f2 :
  same_but_stdout f1 f2 →
  same_but_stdout (noticed silent1 line f1) (noticed silent2 line f2).
Proof. by destruct silent1, silent2. Qed.

Lemma finish_run gateway silent f :
  finish gateway silent f
  = match new_distance gateway with
    | Some d =>
        let s := save {| self := set_distance (Some d) (self (noticed silent "Done" f));
                         world := world (noticed silent "Done" f) |} in
        (match s.1 with Ok _ => Ok true | Raise exc => Raise exc end, s.2)
    | None => (Raise TypeError, noticed silent "Done" f)
    end.
Proof.
  unfold finish, new_distance. unfold bind at 1. rewrite when_print_run.
  unfold bind at 1.
  destruct gateway as [c|]; [destruct (Connection.distance c)|]; simpl;
    rewrite ?frame_eta; try reflexivity;
    unfold bind; by destruct (save _) as [[[]|exc] y].
Qed.

Lemma finish_but_stdout gateway silent1 silent2 f1 f2 :
  same_but_stdout f1 f2 →
  (finish gateway silent1 f1).1 = (finish gateway silent2 f2).1
  ∧ same_but_stdout (finish gateway silent1 f1).2 (finish gateway silent2 f2).2.
Proof.
  intros H. rewrite !finish_run.
  pose proof (noticed_but_stdout silent1 silent2 "Done" _ _ H) as Hn.
  destruct (new_distance gateway) as [d|]; [|done]. cbv zeta.
  set (x1 := {| self := set_distance (Some d) (self (noticed silent1 "Done" f1));
                world := world (noticed silent1 "Done" f1) |}).
  set (x2 := {| self := set_distance (Some d) (self (noticed silent2 "Done" f2));
                world := world (noticed silent2 "Done" f2) |}).
  destruct (save_but_stdout x1 x2) as [Hr Hrel].
  { destruct Hn as (Hs & Hd & Hq). unfold same_but_stdout, x1, x2. simpl.
    by rewrite Hs. }
  simpl. by rewrite Hr.
Qed.

Lemma asyncScan_but_stdout gateway gw silent1 silent2 n f :
  (__asyncScan gateway gw silent1 n f).1 = (__asyncScan gateway gw silent2 n f).1
  ∧ same_but_stdout (__asyncScan gateway gw silent1 n f).2
                    (__asyncScan gateway gw silent2 n f).2.
Proof.
  destruct (completes n) eqn:Hc.
  - rewrite !(asyncScan_completes _ _ _ _ _ Hc). by apply finish_but_stdout.
  - unfold completes in Hc.
    destruct (ending n) as [conn|exc] eqn:He; [done|].
    destruct (handled exc) eqn:Hh.
    + destruct exc; try discriminate Hh.
      * by rewrite !(asyncScan_protocol_error _ _ _ _ _ _ _ He) by (by intros ->).
      * rewrite !(asyncScan_OSError _ _ _ _ _ _ He eq_refl). simpl. split; [done|].
        destruct (bool_decide _); [|done]. by apply noticed_but_stdout.
      * by rewrite !(asyncScan_timeout _ _ _ _ _ He).
    + by rewrite !(asyncScan_unhandled _ _ _ _ _ _ He Hh).
Qed.

(** X9. [silent] changes what is printed and nothing else: with it or
    without it a scan returns or raises the same, leaves the same object
    and the same tables, and runs the same statements. *)
Theorem silent_only_mutes gateway silent1 silent2 env f :
  (scan gateway silent1 env f).1 = (scan gateway silent2 env f).1
  ∧ same_but_stdout (scan gateway silent1 env f).2 (scan gateway silent2 env f).2.
Proof.
  rewrite !scan_run.
  destruct (resolve gateway env) as [g|exc]; [|done].
  destruct (tunnel g env) as [gw|exc]; [|done].
  destruct (asyncScan_but_stdout g gw silent1 silent2 (negotiation env) f)
    as [Hr (Hs & Hd & Hq)].
  destruct (__asyncScan g gw silent1 (negotiation env) f) as [r1 f1],
           (__asyncScan g gw silent2 (negotiation env) f) as [r2 f2].
  simpl in *. subst r2.
  destruct r1 as [b|exc]; [|done].
  destruct g as [c|]; [destruct (host (Connection.endpoint c))|];
    rewrite ?bookkeeping_run; simpl; (split; [done|]);
    unfold same_but_stdout, route_world; simpl; by rewrite Hs, Hd, Hq.
Qed.

(** ** The rows a scan writes *)

Lemma filter_map_other (i j : Z) (row : EndpointRow) rows :
  has_id j row = false → i ≠ j →
  List.filter (has_id j) (map (fun r => if has_id i r then row else r) rows)
  = List.filter (has_id j) rows.
Proof.
  intros Hrow Hij. induction rows as [|x rows IH]; simpl; [done|].
  destruct (has_id i x) eqn:Hi.
  - rewrite Hrow. unfold has_id in *. apply Z.eqb_eq in Hi.
    destruct (Z.eqb_spec (r_id x) j) as [|_]; [congruence|]. done.
  - by rewrite IH.
Qed.

Lemma has_id_other i j e : i ≠ j → has_id j (row_of i e) = false.
Proof. intros H. unfold has_id. simpl. by apply Z.eqb_neq. Qed.

Lemma save_other_rows f j :
  id (self (save f).2) ≠ Some j →
  List.filter (has_id j) (endpoints (db (world (save f).2)))
  = List.filter (has_id j) (endpoints (db (world f)))
  ∧ hosts (db (world (save f).2)) = hosts (db (world f)).
Proof.
  destruct f as [e [[eps ps hs] qs out]]. run_save.
  destruct (id e) as [i|] eqn:Hid; simpl.
  - destruct (_ && _); simpl; rewrite Hid; intros Hj; [done|].
    split; [|done]. apply filter_map_other; [apply has_id_other|]; congruence.
  - destruct (existsb _ _) eqn:Hno; simpl; [done|].
    rewrite (find_inserted _ _ _ Hno). simpl. intros Hj. split; [|done].
    rewrite List.filter_app. simpl. rewrite has_id_other by congruence.
    apply app_nil_r.
Qed.

Lemma asyncScan_other_rows gateway gw silent n f j :
  id (self (__asyncScan gateway gw silent n f).2) ≠ Some j →
  List.filter (has_id j) (endpoints (db (world (__asyncScan gateway gw silent n f).2)))
  = List.filter (has_id j) (endpoints (db (world f)))
  ∧ hosts (db (world (__asyncScan gateway gw silent n f).2)) = hosts (db (world f)).
Proof.
  destruct (completes n) eqn:Hc.
  - rewrite (asyncScan_completes _ _ _ _ _ Hc), finish_run.
    destruct (new_distance gateway) as [d|]; [|by destruct silent].
    cbv zeta. simpl. intros Hj.
    match goal with |- context [save ?x] =>
      destruct (save_other_rows x j Hj) as [-> ->]
    end. by destruct silent.
  - unfold completes in Hc.
    destruct (ending n) as [conn|exc] eqn:He; [done|].
    destruct (handled exc) eqn:Hh.
    + destruct exc; try discriminate Hh.
      * by rewrite (asyncScan_protocol_error _ _ _ _ _ _ _ He) by (by intros ->).
      * rewrite (asyncScan_OSError _ _ _ _ _ _ He eq_refl). simpl.
        by destruct (bool_decide _), silent.
      * by rewrite (asyncScan_timeout _ _ _ _ _ He).
    + by rewrite (asyncScan_unhandled _ _ _ _ _ _ He Hh).
Qed.

(** X10. A scan writes the row of the Endpoint it scans and no other: the
    rows stored under any other id are the same after it, whatever it
    returns or raises, and so is the table of Hosts. *)
Theorem scan_other_rows gateway silent env f j :
  id (self (scan gateway silent env f).2) ≠ Some j →
  List.filter (has_id j) (endpoints (db (world (scan gateway silent env f).2)))
  = List.filter (has_id j) (endpoints (db (world f)))
  ∧ hosts (db (world (scan gateway silent env f).2)) = hosts (db (world f)).
Proof.
  rewrite scan_run.
  destruct (resolve gateway env) as [g|exc]; [|done].
  destruct (tunnel g env) as [gw|exc]; [|done].
  pose proof (asyncScan_other_rows g gw silent (negotiation env) f j) as Hp.
  destruct (__asyncScan g gw silent (negotiation env) f) as [[b|exc] f1];
    [|done].
  destruct g as [c|]; [destruct (host (Connection.endpoint c))|];
    rewrite ?bookkeeping_run; done.
Qed.

(** ** Loading rows *)

Section Rows.

Variable ip_address : string → bool.

Lemma init_follows_found depth ip p w saved i :
  ip_address ip = true →
  List.find (has_identity ip p) (endpoints (db w)) = Some saved →
  r_found saved = Some i →
  ∃ w1, db w1 = db w
        ∧ ∀ exc, (find_one ip_address depth (Some i) None w1).1 = Raise exc →
                 (__init__ ip_address (S depth) ip (str p) w).1 = Raise exc.
Proof.
  intros Hip Hf Hfound. simpl. rewrite Hip, isdigit_str, int_str. simpl.
  unfold bind at 1, execute at 1, modify at 1.
  unfold bind at 1, get at 1. simpl. rewrite Hf.
  unfold bind at 1.
  match goal with |- context [Host.find_one ?h ?w0] =>
    destruct (reads_Host_find_one h w0) as (Hdb & _);
    destruct (Host_find_one_returns h w0) as (hst & w1 & Hh)
  end.
  rewrite Hh in Hdb |- *. simpl in Hdb. exists w1. split; [done|].
  intros exc Hexc. unfold bind at 1. rewrite Hfound.
  by destruct (find_one ip_address depth (Some i) None w1) as [[fnd|?] w2];
    simpl in *; [|injection Hexc as ->].
Qed.

(** X11. A row whose [found] is its own id cannot be loaded: the
    constructor and [find_one] call each other until the interpreter has
    no frame left, whatever the depth it started with. *)
Theorem found_self_never_loads (row : EndpointRow) (d : DB) :
  ip_address (r_ip row) = true →
  List.find (has_identity (r_ip row) (r_port row)) (endpoints d) = Some row →
  List.find (has_id (r_id row)) (endpoints d) = Some row →
  r_found row = Some (r_id row) →
  r_id row ≠ 0 →
  ∀ depth w, db w = d →
    (__init__ ip_address depth (r_ip row) (str (r_port row)) w).1
    = Raise RecursionError
    ∧ (find_one ip_address depth (Some (r_id row)) None w).1
      = Raise RecursionError.
Proof.
  intros Hip Hfi Hfid Hfound Hid.
  induction depth as [|depth IH]; intros w Hw; [done|]. split.
  - rewrite <- Hw in Hfi.
    destruct (init_follows_found depth _ _ _ _ _ Hip Hfi Hfound) as (w1 & Hw1 & Hraise).
    apply Hraise. apply IH. congruence.
  - rewrite (find_one_by_id _ _ _ _ Hid), Hw, Hfid. cbv zeta. cbn [fst].
    by destruct (IH (execute "SELECT ip,port FROM endpoints WHERE id=?" w).2 Hw)
      as [-> _].
Qed.



End Rows.

(** ** Deleting *)

Lemma bind_ok {S A B} (m : M S A) (k : A → M S B) s r s' :
  bind m k s = (Ok r, s') → ∃ a s1, m s = (Ok a, s1) ∧ k a s1 = (Ok r, s').
Proof.
  unfold bind. destruct (m s) as [[a|exc] s1]; [|done]. intros H. by exists a, s1.
Qed.

Lemma liftW_self {A} (m : M World A) f :
  self (liftW m f).2 = self f.
Proof. unfold liftW. by destruct (m (world f)). Qed.

Lemma liftW_world {A} (m : M World A) f :
  (liftW m f).1 = (m (world f)).1 ∧ world (liftW m f).2 = (m (world f)).2.
Proof. unfold liftW. by destruct (m (world f)). Qed.

Lemma forM_liftW_self {A} (l : list A) (k : A → M World unit) f :
  self (forM_ l (fun x => liftW (k x)) f).2 = self f.
Proof.
  revert f. induction l as [|x l IH]; intros f; [done|].
  simpl. unfold bind. pose proof (liftW_self (k x) f) as Hx.
  destruct (liftW (k x) f) as [[[]|exc] f1]; simpl in *; [|done].
  by rewrite IH.
Qed.

Lemma without_ids_in ids rows r :
  r ∈ without_ids ids rows → r ∈ rows ∧ p_id r ∉ ids.
Proof.
  revert rows. induction ids as [|i ids IH]; intros rows; simpl.
  - intros H. split; [done|]. apply not_elem_of_nil.
  - intros H. destruct (IH _ H) as [Hin Hids].
    apply list_elem_of_In, filter_In in Hin as [Hin Hne].
    split; [by apply list_elem_of_In|].
    apply not_elem_of_cons. split; [|done].
    apply negb_true_iff, Z.eqb_neq in Hne. done.
Qed.

Lemma delete_edges (dst : t) (rs : list PathRow) f :
  ∃ f', forM_ (map (fun r => {| Path.src := match p_src r with
                                             | Some h => Some {| Host.id := h |}
                                             | None => None
                                             end;
                                Path.dst := dst; Path.id := Some (p_id r) |}) rs)
              (fun path => liftW (Path.delete path)) f = (Ok tt, f')
        ∧ self f' = self f
        ∧ endpoints (db (world f')) = endpoints (db (world f))
        ∧ paths (db (world f')) = without_ids (map p_id rs) (paths (db (world f))).
Proof.
  revert f. induction rs as [|r rs IH]; intros f.
  - exists f. by repeat split.
  - simpl. unfold bind at 1.
    unfold liftW at 1, Path.delete at 1. simpl. run.
    match goal with |- context [forM_ _ _ ?f1] => destruct (IH f1) as (f' & -> & H1 & H2 & H3) end.
    exists f'. by repeat split.
Qed.

Lemma Path_find_all_run (dst : t) f :
  liftW (Path.find_all dst) f
  = (Ok (map (fun r => {| Path.src := match p_src r with
                                       | Some h => Some {| Host.id := h |}
                                       | None => None
                                       end;
                          Path.dst := dst; Path.id := Some (p_id r) |})
             (List.filter (Path.targets (id dst)) (paths (db (world f))))),
     {| self := self f;
        world := (execute "SELECT src,dst FROM paths WHERE dst=?" (world f)).2 |}).
Proof. reflexivity. Qed.

Lemma liftW_returns {A} (m : M World A) f :
  returns_always m → ∃ a f', liftW m f = (Ok a, f').
Proof.
  intros H. destruct (H (world f)) as (a & w' & Hm).
  unfold liftW. rewrite Hm. by eexists _, _.
Qed.

Lemma forM_returns {A} (l : list A) (k : A → M World unit) f :
  (∀ x, returns_always (k x)) →
  ∃ f', forM_ l (fun x => liftW (k x)) f = (Ok tt, f').
Proof.
  intros Hk. revert f. induction l as [|x l IH]; intros f; [by exists f|].
  simpl. unfold bind.
  destruct (liftW_returns (k x) f (Hk x)) as ([] & f1 & ->). apply IH.
Qed.

Section Deleting.

Variable Host_endpoints : Host.t → M World (list t).
Variable Host_delete : Host.t → M World unit.
Variable Connection_find_all : t → M World (list Connection.t).
Variable Connection_delete : Connection.t → M World unit.

(** X13. [delete] on an Endpoint that was never saved does nothing, and
    calls on no collaborator.  On a saved Endpoint, when it returns, no
    row of the Endpoints has its id any more and no stored edge targets
    it, whatever the Host and Connection registries did to the store on
    the way. *)
Theorem delete_removes f :
  (id (self f) = None →
   delete Host_endpoints Host_delete Connection_find_all Connection_delete f
   = (Ok tt, f))
  ∧ ∀ i f',
      id (self f) = Some i →
      delete Host_endpoints Host_delete Connection_find_all Connection_delete f
      = (Ok tt, f') →
      self f' = self f
      ∧ (∀ r, r ∈ endpoints (db (world f')) → r_id r ≠ i)
      ∧ (∀ p, p ∈ paths (db (world f')) → p_dst p ≠ Some i).
Proof.
  split.
  - intros Hid. unfold delete, bind, get. rewrite Hid. done.
  - intros i f' Hid. unfold delete. unfold bind at 1, get at 1.
    rewrite Hid. intros H.
    apply bind_ok in H as ([] & f1 & Hhost & H).
    assert (Hself1 : self f1 = self f).
    { destruct (host (self f)) as [h|]; [|by injection Hhost as <-].
      apply bind_ok in Hhost as (eps & f0 & H0 & Hhost).
      pose proof (liftW_self (Host_endpoints h) f) as Hs0. rewrite H0 in Hs0.
      destruct (Nat.eqb (length eps) 1); simpl in Hhost.
      - pose proof (liftW_self (Host_delete h) f0) as Hs1. rewrite Hhost in Hs1.
        simpl in *. congruence.
      - injection Hhost as <-. done. }
    apply bind_ok in H as (connections & f2 & Hconn & H).
    pose proof (liftW_self (Connection_find_all (self f)) f1) as Hself2.
    rewrite Hconn in Hself2. simpl in Hself2.
    apply bind_ok in H as ([] & f3 & Hcd & H).
    pose proof (forM_liftW_self connections Connection_delete f2) as Hself3.
    rewrite Hcd in Hself3. simpl in Hself3.
    apply bind_ok in H as (edges & f4 & Hedges & H).
    rewrite Path_find_all_run in Hedges. injection Hedges as <- <-.
    apply bind_ok in H as ([] & f5 & Hdel & H).
    match type of Hdel with forM_ (map _ ?rs) _ ?f4 = _ =>
      destruct (delete_edges (self f) rs f4) as (f5' & Hd' & Hs5 & He5 & Hp5)
    end.
    rewrite Hdel in Hd'. injection Hd' as <-.
    pose proof (liftW_self (execute "DELETE FROM endpoints WHERE id = ?";;;
                  modify (with_db (with_endpoints
                            (List.filter (λ r : EndpointRow, negb (has_id i r)))))) f5)
      as Hs6.
    pose proof (liftW_world (execute "DELETE FROM endpoints WHERE id = ?";;;
                  modify (with_db (with_endpoints
                            (List.filter (λ r : EndpointRow, negb (has_id i r)))))) f5)
      as [_ Hw6].
    rewrite H in Hs6, Hw6. simpl in Hs6, Hw6. rewrite Hw6. clear H Hw6.
    unfold bind, execute, modify. simpl in Hs5, He5, Hp5 |- *.
    split; [congruence|]. split.
    + intros r Hr. apply list_elem_of_In, filter_In in Hr as [_ Hr].
      apply negb_true_iff in Hr. unfold has_id in Hr. by apply Z.eqb_neq in Hr.
    + intros p Hp Hdst. rewrite Hp5 in Hp.
      apply without_ids_in in Hp as [Hin Hnot]. apply Hnot.
      apply list_elem_of_fmap. exists p. split; [done|].
      apply list_elem_of_In, filter_In. split; [by apply list_elem_of_In|].
      unfold Path.targets. rewrite Hid. by apply bool_decide_eq_true.
Qed.

(** X14. [delete] raises only what the Host and Connection registries
    raise: when they return in every store, so does [delete]. *)
Theorem delete_returns f :
  (∀ h, returns_always (Host_endpoints h)) →
  (∀ h, returns_always (Host_delete h)) →
  (∀ e, returns_always (Connection_find_all e)) →
  (∀ c, returns_always (Connection_delete c)) →
  ∃ f', delete Host_endpoints Host_delete Connection_find_all Connection_delete f
        = (Ok tt, f').
Proof.
  intros HE HD CF CD. unfold delete. unfold bind at 1, get at 1.
  destruct (id (self f)) as [i|]; [|by exists f].
  unfold bind at 1.
  assert (Hhost : ∃ f1,
    match host (self f) with
    | Some h => eps <- liftW (Host_endpoints h) ;;
                when (Nat.eqb (length eps) 1) (liftW (Host_delete h))
    | None => ret tt
    end f = (Ok tt, f1)).
  { destruct (host (self f)) as [h|]; [|by exists f].
    unfold bind. destruct (liftW_returns _ f (HE h)) as (eps & f0 & ->).
    destruct (Nat.eqb (length eps) 1); simpl; [|by exists f0].
    destruct (liftW_returns _ f0 (HD h)) as ([] & f1 & ->). by exists f1. }
  destruct Hhost as (f1 & ->).
  unfold bind at 1.
  destruct (liftW_returns _ f1 (CF (self f))) as (connections & f2 & ->).
  unfold bind at 1.
  destruct (forM_returns connections Connection_delete f2 CD) as (f3 & ->).
  unfold bind at 1. rewrite Path_find_all_run.
  unfold bind at 1.
  match goal with |- context [forM_ (map _ ?rs) _ ?f4] =>
    destruct (delete_edges (self f) rs f4) as (f5 & -> & _)
  end.
  unfold liftW, bind, execute, modify. simpl. by eexists.
Qed.

End Deleting.

(** ** The table of edges over a sequence of scans *)

Lemma next_id_fresh (ids : list Z) : next_id ids ∉ ids.
Proof.
  assert (H : ∀ x, x ∈ ids → x < next_id ids).
  { unfold next_id. induction ids as [|y ids IH]; intros x Hx.
    - by apply elem_of_nil in Hx.
    - simpl. apply elem_of_cons in Hx as [->|Hx]; [lia|]. specialize (IH x Hx). lia. }
  intros Hin. specialize (H _ Hin). lia.
Qed.

Lemma NoDup_filter_ids (P : PathRow → bool) rows :
  NoDup (map p_id rows) → NoDup (map p_id (List.filter P rows)).
Proof.
  induction rows as [|x rows IH]; simpl; [done|].
  intros [Hx Hnd]%NoDup_cons. destruct (P x); simpl; [|by apply IH].
  apply NoDup_cons. split; [|by apply IH].
  intros Hin. apply Hx. apply list_elem_of_fmap in Hin as (r & -> & Hr).
  apply list_elem_of_fmap. exists r. split; [done|].
  apply list_elem_of_In in Hr. apply filter_In in Hr as [Hr _].
  by apply list_elem_of_In.
Qed.

Lemma route_paths_ids ok s d rows :
  NoDup (map p_id rows) → NoDup (map p_id (route_paths ok s d rows)).
Proof.
  intros Hnd. unfold route_paths.
  destruct (List.find _ rows) as [r|] eqn:Hf; destruct ok.
  - rewrite map_map.
    replace (map (λ x, p_id (if (p_id x =? p_id r)%Z
                             then {| p_id := p_id r; p_src := s; p_dst := d |}
                             else x)) rows) with (map p_id rows); [done|].
    apply map_ext. intros x. by destruct (Z.eqb_spec (p_id x) (p_id r)).
  - by apply NoDup_filter_ids.
  - rewrite map_app. simpl. apply NoDup_app. split; [done|]. split.
    + intros x Hx Hx'. apply list_elem_of_singleton in Hx' as ->.
      by apply next_id_fresh in Hx.
    + apply NoDup_singleton.
  - done.
Qed.

Lemma count_in_others s d s' d' rows :
  (∀ r, Path.is_edge s' d' r = true → Path.is_edge s d r = false) →
  edge_count s' d' rows = edge_count s' d' (other_edges s d rows).
Proof.
  intros H. unfold edge_count, other_edges.
  induction rows as [|x rows IH]; simpl; [done|].
  destruct (Path.is_edge s' d' x) eqn:Hx.
  - rewrite (H x Hx). simpl. rewrite Hx. simpl. by rewrite IH.
  - destruct (Path.is_edge s d x); simpl; rewrite ?Hx; apply IH.
Qed.

Lemma is_edge_same_or_apart s d s' d' :
  (s' = s ∧ d' = d) ∨ (∀ r, Path.is_edge s' d' r = true → Path.is_edge s d r = false).
Proof.
  destruct (decide (s' = s ∧ d' = d)) as [|Hne]; [by left|right].
  intros r. unfold Path.is_edge.
  destruct d' as [j'|]; [|by rewrite andb_false_r].
  rewrite andb_true_iff, !bool_decide_eq_true. intros [Hs Hd].
  destruct d as [j|]; [|by rewrite andb_false_r].
  apply andb_false_iff. rewrite !bool_decide_eq_false.
  destruct (decide (s = s')) as [->|]; [|left; congruence].
  right. intros Hj. apply Hne. split; [done|]. congruence.
Qed.

Lemma route_paths_once ok s d rows :
  (ok = true → is_Some d) →
  edges_once rows → edges_once (route_paths ok s d rows).
Proof.
  intros Hd [Hnd Hone]. split; [by apply route_paths_ids|].
  destruct (route_paths_count ok s d rows Hnd Hd) as [Hcount Hother].
  intros s' d'. destruct (is_edge_same_or_apart s d s' d') as [[-> ->]|Hapart].
  - rewrite Hcount. specialize (Hone s d). destruct ok; lia.
  - rewrite (count_in_others s d s' d' _ Hapart), Hother,
      <- (count_in_others s d s' d' _ Hapart). apply Hone.
Qed.

Lemma scan_edges_once gateway silent env f :
  edges_once (paths (db (world f))) →
  edges_once (paths (db (world (scan gateway silent env f).2))).
Proof.
  intros Hinv. rewrite scan_run.
  destruct (resolve gateway env) as [g|exc]; [|done].
  destruct (tunnel g env) as [gw|exc]; [|done].
  pose proof (asyncScan_object g gw silent (negotiation env) f) as (_ & _ & Hp & _).
  destruct (__asyncScan g gw silent (negotiation env) f) as [[b|exc] f1] eqn:Ha;
    simpl in Hp; [|simpl; by rewrite Hp].
  assert (Hid : b = true → is_Some (id (self f1))).
  { intros ->. apply asyncScan_true in Ha as [_ Ha]. by apply finish_ok_id in Ha. }
  destruct g as [c|]; [destruct (host (Connection.endpoint c))|];
    rewrite ?bookkeeping_run; simpl; rewrite ?Hp; try done;
    by apply route_paths_once.
Qed.

Lemma scan_edge_exact gateway silent env f g s ok f' :
  edges_once (paths (db (world f))) →
  resolve gateway env = Ok g → origin g = Some s →
  scan gateway silent env f = (Ok ok, f') →
  edge_count s (id (self f')) (paths (db (world f'))) = (if ok then 1 else 0)%nat.
Proof.
  intros [Hnd Hone] Hr Ho Hs. rewrite scan_run, Hr in Hs.
  destruct (tunnel g env) as [gw|exc]; [|done].
  pose proof (asyncScan_object g gw silent (negotiation env) f) as (_ & _ & Hp & _).
  destruct (__asyncScan g gw silent (negotiation env) f) as [[b|exc] f1] eqn:Ha;
    [|done].
  simpl in Hp.
  assert (Hid : b = true → is_Some (id (self f1))).
  { intros ->. apply asyncScan_true in Ha as [_ Ha]. by apply finish_ok_id in Ha. }
  assert (Hedge : ∀ gwHost,
            bookkeeping b gwHost f1 = (Ok ok, f') →
            edge_count (Path.src_id gwHost) (id (self f')) (paths (db (world f')))
            = (if ok then 1 else 0)%nat).
  { intros gwHost. rewrite bookkeeping_run. intros [= <- <-]. simpl.
    rewrite <- Hp in Hnd, Hone.
    destruct (route_paths_count b (Path.src_id gwHost) (id (self f1)) _ Hnd Hid)
      as [-> _].
    specialize (Hone (Path.src_id gwHost) (id (self f1))).
    destruct b; lia. }
  destruct g as [c|]; simpl in Ho.
  - destruct (host (Connection.endpoint c)) as [h|]; [|done].
    injection Ho as <-. by apply (Hedge (Some h)).
  - injection Ho as <-. by apply (Hedge None).
Qed.

(** X15. Over any sequence of scans the table of edges keeps distinct ids
    and holds no edge twice, when it started so; and a scan that returns
    after such a sequence leaves the edge from its origin to the scanned
    Endpoint stored exactly once if it returned [True], and not stored at
    all if it returned [False]: a repeated success stores nothing anew and
    a failure removes what it finds. *)
Theorem scans_edges_once l f :
  edges_once (paths (db (world f))) →
  edges_once (paths (db (world (scans l f))))
  ∧ ∀ gateway silent env g s ok f',
      resolve gateway env = Ok g → origin g = Some s →
      scan gateway silent env (scans l f) = (Ok ok, f') →
      edge_count s (id (self f')) (paths (db (world f')))
      = (if ok then 1 else 0)%nat.
Proof.
  intros Hinv.
  assert (Hall : ∀ l f, edges_once (paths (db (world f))) →
                        edges_once (paths (db (world (scans l f))))).
  { clear. induction l as [|[[gateway silent] env] l IH]; intros f Hinv; [done|].
    simpl. apply IH. by apply scan_edges_once. }
  split; [by apply Hall|].
  intros gateway silent env g s ok f' Hr Ho Hs.
  by apply (scan_edge_exact gateway silent env (scans l f) g s ok f' (Hall l f Hinv)).
Qed.

(** ** What the finders leave *)

Lemma reads_mapM {A B} (k : A → M World B) (l : list A) :
  (∀ x, reads_only (k x)) → reads_only (mapM k l).
Proof.
  intros Hk. induction l as [|x l IH]; simpl; [apply reads_ret|].
  apply reads_bind; [apply Hk|]. intros y.
  apply reads_bind; [apply IH|]. intros ys. apply reads_ret.
Qed.

Section Finders.

Variable ip_address : string → bool.

Lemma reads_find_all depth scope fnd :
  reads_only (find_all ip_address depth scope fnd).
Proof.
  unfold find_all. apply reads_bind.
  - destruct fnd as [e|]; destruct scope as [s|];
      try (apply reads_bind; [apply reads_raise|]; intros e');
      (apply reads_bind; [apply reads_execute|]); intros _;
      (apply reads_get; [intros w; apply reads_ret|]);
      intros w1 w2 H; by rewrite H.
  - intros req. apply reads_mapM. intros row. apply reads_init.
Qed.

(** X16. The constructor and the three finders write nothing to the
    tables, whether they return or raise and whatever they load on the
    way; of the four only [search] prints, and what it prints on a field
    of the allow-list is the name of the field. *)
Theorem finders_never_write depth w :
  (∀ ip p, db (__init__ ip_address depth ip p w).2 = db w
           ∧ stdout (__init__ ip_address depth ip p w).2 = stdout w)
  ∧ (∀ i s, db (find_one ip_address depth i s w).2 = db w
            ∧ stdout (find_one ip_address depth i s w).2 = stdout w)
  ∧ (∀ scope fnd, db (find_all ip_address depth scope fnd w).2 = db w
                  ∧ stdout (find_all ip_address depth scope fnd w).2 = stdout w)
  ∧ (∀ field val show_all,
       db (search ip_address depth field val show_all w).2 = db w
       ∧ stdout (search ip_address depth field val show_all w).2
         = (stdout w ++ if bool_decide (field ∈ search_fields) then [field] else [])%list).
Proof.
  split; [|split; [|split]].
  - intros ip p. destruct (reads_init ip_address depth ip p w) as (H1 & H2 & _).
    by split.
  - intros i s. destruct (reads_lookup ip_address depth) as [_ H].
    destruct (H i s w) as (H1 & H2 & _). by split.
  - intros scope fnd. destruct (reads_find_all depth scope fnd w) as (H1 & H2 & _).
    by split.
  - intros field val show_all. unfold search.
    destruct (bool_decide (field ∈ search_fields)); simpl;
      [|by rewrite app_nil_r].
    unfold bind at 1, print_line at 1, modify at 1.
    match goal with |- context [bind ?m ?k ?w1] =>
      assert (Hr : reads_only (bind m k)); [|destruct (Hr w1) as (H1 & H2 & _)]
    end.
    { apply reads_bind.
      - destruct show_all;
          (apply reads_bind; [apply reads_execute|]); intros _;
          (apply reads_get; [intros w1; apply reads_ret|]);
          intros w1 w2 H; by rewrite H.
      - intros rows. apply reads_mapM. intros row. apply reads_init. }
    by split.
Qed.

End Finders.

(** ** The further properties at the worked scans *)

(** A new Endpoint saved twice. *)
Lemma save_twice_witness :
  ∃ f1 f2, save (target "10.0.0.5" empty_world) = (Ok tt, f1)
           ∧ save f1 = (Ok tt, f2)
           ∧ self f2 = self f1
           ∧ db (world f2) = db (world f1).
Proof. apply (save_twice (target "10.0.0.5" empty_world)). reflexivity. Defined.

(** A new Endpoint saved and constructed again. *)
Lemma save_then_construct_witness :
  ∃ f1 i,
    save (target "10.0.0.5" empty_world) = (Ok tt, f1) ∧ id (self f1) = Some i
    ∧ ∀ r w',
        __init__ example_ip_address 1 "10.0.0.5" (str 22) (world f1) = (r, w') →
        (found_id (fresh "10.0.0.5" 22) = None → ∃ e, r = Ok e)
        ∧ ∀ e, r = Ok e → id e = Some i ∧ same_record (fresh "10.0.0.5" 22) e.
Proof.
  apply (save_then_construct example_ip_address 0 (target "10.0.0.5" empty_world));
    reflexivity.
Defined.

(** The gateway Endpoint saved and found by its id. *)
Lemma save_then_find_by_id_witness :
  ∃ f1 i,
    save gateway_frame = (Ok tt, f1) ∧ id (self f1) = Some i ∧ i ≠ 0
    ∧ ∀ r w',
        find_one example_ip_address 2 (Some i) None (world f1) = (r, w') →
        r ≠ Ok None
        ∧ (found_id gateway_endpoint = None → ∃ e, r = Ok (Some e))
        ∧ ∀ e, r = Ok (Some e) → id e = Some i ∧ same_record gateway_endpoint e.
Proof.
  apply (save_then_find_by_id example_ip_address 0 gateway_frame).
  - reflexivity.
  - reflexivity.
  - discriminate.
Defined.

(** The gateway Endpoint saved and found by its text. *)
Lemma str_then_find_one_witness :
  ∃ f1 i,
    save gateway_frame = (Ok tt, f1) ∧ id (self f1) = Some i
    ∧ ∀ r w',
        find_one example_ip_address 2 None (Some (__str__ gateway_endpoint)) (world f1)
        = (r, w') →
        r ≠ Ok None
        ∧ (found_id gateway_endpoint = None → ∃ e, r = Ok (Some e))
        ∧ ∀ e, r = Ok (Some e) → id e = Some i ∧ same_record gateway_endpoint e.
Proof.
  apply (str_then_find_one example_ip_address 0 gateway_frame); reflexivity.
Defined.

(** An IPv6 Endpoint looked up by its text. *)
Lemma str_with_colon_not_found_witness :
  find_one example_ip_address 1 None (Some (__str__ (fresh "fe80::1" 22))) gateway_world
  = (Ok None,
     (execute "SELECT ip,port FROM endpoints WHERE ip=? and port=?" gateway_world).2).
Proof.
  apply (str_with_colon_not_found example_ip_address 0 (fresh "fe80::1" 22) gateway_world).
  reflexivity.
Defined.

(** The tunneled scan returns. *)
Lemma scan_returns_witness :
  ∃ f', scan (via gateway_connection) true (env_of denied)
             (target "10.0.0.6" gateway_world)
        = (Ok (completes (negotiation (env_of denied))), f')
        ∧ attached (self f') (world f') = true
        ∧ scanned (self f') = true.
Proof.
  apply (scan_returns (via gateway_connection) true (env_of denied)
           (target "10.0.0.6" gateway_world) (Some gateway_connection)
           (Some open_handle)).
  - reflexivity.
  - reflexivity.
  - reflexivity.
  - intros c [= <-]. exists 1. reflexivity.
  - reflexivity.
Defined.

(** A direct scan that meets a protocol error. *)
Lemma protocol_error_reported_witness :
  ∃ f', scan no_gateway true (env_of protocol_error) (target "10.0.0.5" empty_world)
        = (Ok false, f')
        ∧ stdout (world f')
          = (stdout empty_world ++ ["asyncssh Error: " +:+ "Protocol error"])%list
        ∧ endpoints (db (world f')) = endpoints (db empty_world)
        ∧ self f' = observed (callbacks (negotiation (env_of protocol_error)))
                             (set_scanned true (fresh "10.0.0.5" 22)).
Proof.
  apply (protocol_error_reported no_gateway true (env_of protocol_error)
           (target "10.0.0.5" empty_world) None None 2 "Protocol error").
  - reflexivity.
  - reflexivity.
  - reflexivity.
  - discriminate.
Defined.

(** A login denied and a login accepted, after the same offers. *)
Lemma reached_alike_witness :
  scan (via gateway_connection) false (env_of denied) (target "10.0.0.6" gateway_world)
  = scan (via gateway_connection) false (env_of accepted) (target "10.0.0.6" gateway_world).
Proof.
  apply (reached_alike (via gateway_connection) false (env_of denied) (env_of accepted)
           (target "10.0.0.6" gateway_world)); reflexivity.
Defined.

(** The tunneled scan leaves the row of the gateway. *)
Lemma scan_other_rows_witness :
  List.filter (has_id 1)
    (endpoints (db (world (scan (via gateway_connection) true (env_of denied)
                             (target "10.0.0.6" gateway_world)).2)))
  = List.filter (has_id 1) (endpoints (db (world (target "10.0.0.6" gateway_world))))
  ∧ hosts (db (world (scan (via gateway_connection) true (env_of denied)
                        (target "10.0.0.6" gateway_world)).2))
    = hosts (db (world (target "10.0.0.6" gateway_world))).
Proof.
  apply (scan_other_rows (via gateway_connection) true (env_of denied)
           (target "10.0.0.6" gateway_world) 1).
  vm_compute. discriminate.
Defined.

(** The row that names itself, loaded with eight frames left. *)
Lemma found_self_never_loads_witness :
  (__init__ example_ip_address 8 (r_ip looping_row) (str (r_port looping_row))
            looping_world).1
  = Raise RecursionError
  ∧ (find_one example_ip_address 8 (Some (r_id looping_row)) None looping_world).1
    = Raise RecursionError.
Proof.
  apply (found_self_never_loads example_ip_address looping_row looping_db).
  - reflexivity.
  - reflexivity.
  - reflexivity.
  - reflexivity.
  - discriminate.
  - reflexivity.
Defined.


(** The gateway Endpoint deleted. *)
Lemma delete_removes_witness :
  ∃ f', delete one_endpoint keep_host no_connections keep_connection gateway_frame
        = (Ok tt, f')
        ∧ self f' = gateway_endpoint
        ∧ (∀ r, r ∈ endpoints (db (world f')) → r_id r ≠ 1)
        ∧ (∀ p, p ∈ paths (db (world f')) → p_dst p ≠ Some 1).
Proof.
  exists (delete one_endpoint keep_host no_connections keep_connection gateway_frame).2.
  split; [reflexivity|].
  apply (delete_removes one_endpoint keep_host no_connections keep_connection
           gateway_frame); reflexivity.
Defined.

Lemma delete_returns_witness :
  ∃ f', delete one_endpoint keep_host no_connections keep_connection gateway_frame
        = (Ok tt, f').
Proof.
  apply (delete_returns one_endpoint keep_host no_connections keep_connection
           gateway_frame);
    intros x w; eexists _, w; reflexivity.
Defined.

(** The edge from Host 7 after the tunneled scan was repeated, and after
    a scan through the gateway found no route. *)
Lemma scans_edges_once_witness :
  edges_once (paths (db (world
    (scans [(via gateway_connection, true, env_of denied)]
           (target "10.0.0.6" gateway_world)))))
  ∧ edge_count (Some 7) (id (self tunneled_again.2))
               (paths (db (world tunneled_again.2))) = 1%nat
  ∧ edge_count (Some 7) (id (self tunnel_lost.2))
               (paths (db (world tunnel_lost.2))) = 0%nat.
Proof.
  destruct (scans_edges_once [(via gateway_connection, true, env_of denied)]
              (target "10.0.0.6" gateway_world)) as [H1 H2].
  - split.
    + simpl. apply NoDup_cons. split; [apply not_elem_of_nil|apply NoDup_nil_2].
    + intros s d. unfold edge_count. simpl.
      destruct (Path.is_edge s d _); simpl; lia.
  - split; [exact H1|]. split.
    + apply (H2 (via gateway_connection) true (env_of denied)
                (Some gateway_connection) (Some 7) true tunneled_again.2);
        [reflexivity|reflexivity|]. vm_compute. reflexivity.
    + apply (H2 (via gateway_connection) true (env_of no_route)
                (Some gateway_connection) (Some 7) false tunnel_lost.2);
        [reflexivity|reflexivity|]. vm_compute. reflexivity.
Defined.
